(** * DrumTrainer: the stem mixdown and click overlay of [app.py]

    A shallow embedding of [make_backing] and its helpers ([_load_seg],
    [_longest_duration_ms], [_make_click_sample]) together with the part of
    pydub and audioop they call, and the properties of the mixdown that the
    specification states.

    Numbers.  Python's [int] is [Z].  A Python [float] that only goes through
    [+], [*], [/], comparisons, [int()] and [round()] (seconds, milliseconds,
    beats per minute) is a value of a type [F] with a [PyFloat] structure,
    which has two instances: [binary64], the IEEE 754 doubles CPython computes
    with, and [exact], the rationals, in which the same program text is read
    as exact arithmetic.  Levels in decibels and the linear factors derived
    from them go through [log] and [**]; they are real numbers. *)

From Stdlib Require Import ZArith QArith Qround Reals Psatz String Bool Floats List Permutation.
Import ListNotations.
Local Open Scope Z_scope.

(* ===================================================================== *)
(** * Python values *)
(* ===================================================================== *)

Module Python.

(** The exceptions the modelled code can raise. *)
Inductive exn : Type :=
| FileNotFoundError (msg : string)
| ValueError (msg : string)
| OverflowError (msg : string)
| ZeroDivisionError (msg : string)
| CouldntDecodeError (msg : string)
| TooManyMissingFrames (missing_frames : Z).

(** The outcome of running a piece of code: a value, or a raised exception. *)
Inductive result (A : Type) : Type :=
| Ok (a : A)
| Raise (e : exn).
Arguments Ok {A} a.
Arguments Raise {A} e.

Definition bind {A B : Type} (r : result A) (k : A -> result B) : result B :=
  match r with
  | Ok a => k a
  | Raise e => Raise e
  end.

(** [xs[start:stop]] for ints [start] and [stop]: a negative index counts
    from the end, and both ends are brought into the list. *)
Definition slice_index (n i : Z) : Z := if i <? 0 then Z.max (i + n) 0 else Z.min i n.

Definition slice {A : Type} (xs : list A) (start stop : Z) : list A :=
  let n := Z.of_nat (length xs) in
  let s := slice_index n start in
  let e := slice_index n stop in
  firstn (Z.to_nat (e - s)) (skipn (Z.to_nat s) xs).

(** The operations of Python floats the program uses.  [fof_int n] is the
    float an [int] operand is promoted to; [int_of x] is [int(x)];
    [round6 x] is [round(x, 6)]; [round0 x] is [round(x)].  [fdiv] is only
    called on a divisor that is a non-zero constant or has been tested: the
    caller raises ZeroDivisionError itself where Python would. *)
Class PyFloat (F : Type) : Type := {
  fof_int : Z -> F;
  fadd : F -> F -> F;
  fmul : F -> F -> F;
  fdiv : F -> F -> F;
  fle : F -> F -> bool;
  flt : F -> F -> bool;
  feq : F -> F -> bool;
  int_of : F -> result Z;
  round6 : F -> F;
  round0 : F -> result Z
}.

(** [bool(x)] of a float: [x != 0.0]. *)
Definition truthy {F : Type} `{PyFloat F} (x : F) : bool :=
  negb (feq x (fof_int 0)).

(** Rounding of the rational [n / d] to the nearest integer, ties to the even
    one: what [round] does with the exact value of its argument. *)
Definition round_half_even (n : Z) (d : positive) : Z :=
  let fl := n / Zpos d in
  match (2 * (n - fl * Zpos d)) ?= Zpos d with
  | Lt => fl
  | Gt => fl + 1
  | Eq => if Z.even fl then fl else fl + 1
  end.

(** ** IEEE 754 binary64, as CPython computes *)

(** [float(z)]: the double nearest to [z], ties to even.  (CPython raises
    OverflowError beyond the range of doubles; durations in milliseconds and
    frame counts stay far below it.) *)
Definition b64_of_int (z : Z) : float :=
  SF2Prim (binary_normalize prec emax z 0 false).

(** [int(x)]: truncation toward zero; ValueError on NaN, OverflowError on
    an infinity. *)
Definition b64_int_of (x : float) : result Z :=
  match Prim2SF x with
  | S754_zero _ => Ok 0
  | S754_finite s m e =>
      let a := match e with
               | Zneg p => Zpos m / 2 ^ Zpos p
               | _ => Zpos m * 2 ^ e
               end in
      Ok (if s then - a else a)
  | S754_infinity _ => Raise (OverflowError "cannot convert float infinity to integer")
  | S754_nan => Raise (ValueError "cannot convert float NaN to integer")
  end.

(** [round(x, 6)]: the exact value of [x] is rounded, ties to even, to a
    multiple of 10^-6, and the double nearest to that decimal is returned
    (float_round in floatobject.c, through dtoa and strtod).  With
    [n < 2^53] both [n] and 10^6 are doubles, so the correctly rounded
    quotient is that nearest double; beyond, a double is further than 10^-6
    from its neighbours and rounds to itself.  Zeros, infinities, NaN and
    doubles without fractional part round to themselves. *)
Definition b64_round6 (x : float) : float :=
  match Prim2SF x with
  | S754_finite s m (Zneg p) =>
      let n := round_half_even (Zpos m * 1000000) (2 ^ p) in
      if n <? 2 ^ 53 then
        let r := PrimFloat.div (b64_of_int n) (b64_of_int 1000000) in
        if s then PrimFloat.opp r else r
      else x
  | _ => x
  end.

(** [round(x)]: the nearest integer, ties to even; errors as for [int]. *)
Definition b64_round0 (x : float) : result Z :=
  match Prim2SF x with
  | S754_zero _ => Ok 0
  | S754_finite s m e =>
      let a := match e with
               | Zneg p => round_half_even (Zpos m) (2 ^ p)
               | _ => Zpos m * 2 ^ e
               end in
      Ok (if s then - a else a)
  | S754_infinity _ => Raise (OverflowError "cannot convert float infinity to integer")
  | S754_nan => Raise (ValueError "cannot convert float NaN to integer")
  end.

#[export] Instance binary64 : PyFloat float := {
  fof_int := b64_of_int;
  fadd := PrimFloat.add;
  fmul := PrimFloat.mul;
  fdiv := PrimFloat.div;
  fle := PrimFloat.leb;
  flt := PrimFloat.ltb;
  feq := PrimFloat.eqb;
  int_of := b64_int_of;
  round6 := b64_round6;
  round0 := b64_round0
}.

(** ** Exact arithmetic *)

Definition Q_round6 (q : Q) : Q :=
  Qmake (round_half_even (Qnum q * 1000000) (Qden q)) 1000000.

#[export] Instance exact : PyFloat Q := {
  fof_int := inject_Z;
  fadd := Qplus;
  fmul := Qmult;
  fdiv := Qdiv;
  fle := Qle_bool;
  flt := fun x y => negb (Qle_bool y x);
  feq := Qeq_bool;
  int_of := fun q => Ok (Z.quot (Qnum q) (Zpos (Qden q)));
  round6 := Q_round6;
  round0 := fun q => Ok (round_half_even (Qnum q) (Qden q))
}.

End Python.

(* ===================================================================== *)
(** * audioop: arithmetic on PCM samples *)
(* ===================================================================== *)

(** A fragment is the list of its samples, each a signed integer of [width]
    bytes; the samples of the channels of a frame follow one another. *)
Module audioop.

Definition maxval (width : Z) : Z := 2 ^ (8 * width - 1) - 1.
Definition minval (width : Z) : Z := - 2 ^ (8 * width - 1).

(** [fbound(val, minval, maxval)] of audioop.c: saturate, then round toward
    minus infinity. *)
Definition fbound (val : R) (lo hi : Z) : Z :=
  if Rlt_dec (IZR hi) val then hi
  else if Rlt_dec val (IZR lo + 1) then lo
  else Int_part val.

(** [fbound] at an integer value: saturation alone. *)
Definition clip (width v : Z) : Z :=
  if maxval width <? v then maxval width
  else if v <? minval width then minval width
  else v.

(** [audioop.add(a, b, width)]: the sample-wise sum, truncated in case of
    overflow.  pydub calls it on fragments of the same length. *)
Definition add (width : Z) (a b : list Z) : list Z :=
  map (fun p => clip width (fst p + snd p)) (combine a b).

(** [audioop.mul(fragment, width, factor)]. *)
Definition mul (width : Z) (fragment : list Z) (factor : R) : list Z :=
  map (fun s => fbound (IZR s * factor) (minval width) (maxval width)) fragment.

(** [audioop.max(fragment, width)]: the largest absolute value of a sample. *)
Definition max (fragment : list Z) : Z :=
  fold_right (fun s m => Z.max (Z.abs s) m) 0 fragment.

(** [audioop.lin2lin(fragment, width, newwidth)]: the samples are aligned on
    the most significant byte. *)
Definition lin2lin (fragment : list Z) (width newwidth : Z) : list Z :=
  map (fun s => Z.shiftl s (8 * (newwidth - width))) fragment.

(** [audioop.tostereo(fragment, width, 1, 1)]: each sample goes to both
    channels. *)
Definition tostereo (fragment : list Z) : list Z :=
  flat_map (fun s => [s; s]) fragment.

(** [audioop.tomono(fragment, width, 0.5, 0.5)]: the mean of the two
    channels, rounded toward minus infinity. *)
Fixpoint tomono (fragment : list Z) : list Z :=
  match fragment with
  | l :: r :: rest => (l + r) / 2 :: tomono rest
  | _ => []
  end.

End audioop.

(* ===================================================================== *)
(** * pydub: audio segments *)
(* ===================================================================== *)

Module pydub.
Import Python.

(** An [AudioSegment]: its decoded samples and the three numbers of its
    header.  A frame is [channels] consecutive samples. *)
Record AudioSegment : Type := mkSeg {
  samples : list Z;
  sample_width : Z;
  frame_rate : Z;
  channels : Z
}.

(** [seg._spawn(data)]: the same header over other samples. *)
Definition _spawn (seg : AudioSegment) (data : list Z) : AudioSegment :=
  mkSeg data (sample_width seg) (frame_rate seg) (channels seg).

(** [seg.frame_count()]: [len(data) // frame_width]. *)
Definition frame_count (seg : AudioSegment) : Z :=
  Z.of_nat (length (samples seg)) / channels seg.

(** The samples of a fragment, frame by frame. *)
Fixpoint frames_of (fuel k : nat) (data : list Z) : list (list Z) :=
  match fuel, data with
  | S fuel', _ :: _ => firstn k data :: frames_of fuel' k (skipn k data)
  | _, _ => []
  end.

(** [seg.set_channels(n)].  The same count returns the segment itself; mono
    is copied to every channel; stereo and multi-channel audio is mixed down
    to mono; any other conversion raises ValueError. *)
Definition set_channels (n : Z) (seg : AudioSegment) : result AudioSegment :=
  if n =? channels seg then Ok seg
  else if (n =? 2) && (channels seg =? 1) then
    Ok (mkSeg (audioop.tostereo (samples seg)) (sample_width seg) (frame_rate seg) n)
  else if (n =? 1) && (channels seg =? 2) then
    Ok (mkSeg (audioop.tomono (samples seg)) (sample_width seg) (frame_rate seg) n)
  else if n =? 1 then
    let k := Z.to_nat (channels seg) in
    let frames := frames_of (length (samples seg)) k (samples seg) in
    Ok (mkSeg (map (fun fr => fold_left (fun acc s => acc + s / channels seg) fr 0) frames)
              (sample_width seg) (frame_rate seg) n)
  else if channels seg =? 1 then
    Ok (mkSeg (flat_map (fun s => repeat s (Z.to_nat n)) (samples seg))
              (sample_width seg) (frame_rate seg) n)
  else Raise (ValueError "AudioSegment.set_channels only supports mono-to-multi channel and multi-to-mono channel conversion").

(** [seg.set_sample_width(w)]. *)
Definition set_sample_width (w : Z) (seg : AudioSegment) : AudioSegment :=
  if w =? sample_width seg then seg
  else mkSeg (audioop.lin2lin (samples seg) (sample_width seg) w) w (frame_rate seg) (channels seg).

(** [seg.max_possible_amplitude]: half of [2 ** bits]. *)
Definition max_possible_amplitude (seg : AudioSegment) : Z :=
  2 ^ (8 * sample_width seg) / 2.

(** A level in decibels: a real number, or Python's [-float("inf")]. *)
Inductive level : Type :=
| NegInf
| dB (x : R).

(** [ratio_to_db(ratio, val2)]: [20 * log(ratio / val2, 10)], and minus
    infinity for a zero ratio. *)
Definition ratio_to_db (ratio val2 : R) : level :=
  let r := (ratio / val2)%R in
  if Req_dec_T r 0 then NegInf else dB (20 * (ln r / ln 10))%R.

(** [seg.max_dBFS]. *)
Definition max_dBFS (seg : AudioSegment) : level :=
  ratio_to_db (IZR (audioop.max (samples seg))) (IZR (max_possible_amplitude seg)).

(** [db_to_float(db)]: [10 ** (db / 20)]. *)
Definition db_to_float (db : R) : R := Rpower 10 (db / 20).

(** [seg.apply_gain(volume_change)], also written [seg + volume_change]. *)
Definition apply_gain (seg : AudioSegment) (volume_change : R) : AudioSegment :=
  _spawn seg (audioop.mul (sample_width seg) (samples seg) (db_to_float volume_change)).

(** [seg - x] for a number [x]: [seg.apply_gain(-x)]. *)
Definition sub_gain (seg : AudioSegment) (x : R) : AudioSegment :=
  apply_gain seg (- x)%R.

Section Resampling.

(** [audioop.ratecv(data, width, channels, inrate, outrate, None)]: the
    resampler, which the mixdown leaves to the library. *)
Variable ratecv : list Z -> Z -> Z -> Z -> Z -> list Z.

(** [seg.set_frame_rate(rate)]. *)
Definition set_frame_rate (rate : Z) (seg : AudioSegment) : AudioSegment :=
  if rate =? frame_rate seg then seg
  else
    match samples seg with
    | [] => mkSeg [] (sample_width seg) rate (channels seg)
    | _ => mkSeg (ratecv (samples seg) (sample_width seg) (channels seg) (frame_rate seg) rate)
                 (sample_width seg) rate (channels seg)
    end.

(** [AudioSegment._sync(a, b)]: both segments brought to the larger channel
    count, frame rate and sample width of the two. *)
Definition _sync (a b : AudioSegment) : result (AudioSegment * AudioSegment) :=
  let ch := Z.max (channels a) (channels b) in
  let fr := Z.max (frame_rate a) (frame_rate b) in
  let sw := Z.max (sample_width a) (sample_width b) in
  let conv seg := bind (set_channels ch seg)
                       (fun s => Ok (set_sample_width sw (set_frame_rate fr s))) in
  bind (conv a) (fun a' => bind (conv b) (fun b' => Ok (a', b'))).

End Resampling.

Section Clock.
Context {F : Type} `{PyFloat F}.

(** [seg.duration_seconds]:
    [self.frame_rate and self.frame_count() / self.frame_rate or 0.0]. *)
Definition duration_seconds (seg : AudioSegment) : F :=
  if frame_rate seg =? 0 then fof_int 0
  else
    let d := fdiv (fof_int (frame_count seg)) (fof_int (frame_rate seg)) in
    if truthy d then d else fof_int 0.

(** [AudioSegment.silent(duration, frame_rate)]: mono, 16 bit,
    [int(frame_rate * (duration / 1000.0))] frames of zeros. *)
Definition silent (duration rate : Z) : result AudioSegment :=
  bind (int_of (fmul (fof_int rate) (fdiv (fof_int duration) (fof_int 1000))))
       (fun frames => Ok (mkSeg (repeat 0 (Z.to_nat frames)) 2 rate 1)).

(** [len(seg)], the length in milliseconds:
    [round(1000 * (self.frame_count() / self.frame_rate))]. *)
Definition __len__ (seg : AudioSegment) : result Z :=
  if frame_rate seg =? 0 then Raise (ZeroDivisionError "float division by zero")
  else round0 (fmul (fof_int 1000)
                    (fdiv (fof_int (frame_count seg)) (fof_int (frame_rate seg)))).

(** [seg.frame_count(ms=ms)]: [ms * (self.frame_rate / 1000.0)]. *)
Definition frame_count_ms (seg : AudioSegment) (ms : Z) : F :=
  fmul (fof_int ms) (fdiv (fof_int (frame_rate seg)) (fof_int 1000)).

(** [seg._parse_position(val)] for an int [val]: the frame at [val]
    milliseconds, counted from the end when [val] is negative. *)
Definition _parse_position (seg : AudioSegment) (val : Z) : result Z :=
  bind (if val <? 0 then bind (__len__ seg) (fun l => Ok (l - Z.abs val)) else Ok val)
       (fun val => int_of (frame_count_ms seg val)).

(** [seg[start:stop]], in milliseconds ([None] for an end left out).  Both
    ends are capped by [len(seg)] and turned into frames; the data between
    them is cut out, and when it is shorter than these frames ask for, it is
    filled up with silence, unless more than 2 ms are missing.  A frame is
    [channels] samples here, so the byte counts of pydub are divided by the
    sample width throughout. *)
Definition __getitem__ (seg : AudioSegment) (start stop : option Z) : result AudioSegment :=
  bind (__len__ seg) (fun l =>
  let start := Z.min (match start with Some s => s | None => 0 end) l in
  let stop := Z.min (match stop with Some e => e | None => l end) l in
  bind (_parse_position seg start) (fun s =>
  bind (_parse_position seg stop) (fun e =>
  let start := s * channels seg in
  let stop := e * channels seg in
  let data := slice (samples seg) start stop in
  let expected_length := stop - start in
  if channels seg * sample_width seg =? 0
  then Raise (ZeroDivisionError "integer division or modulo by zero")
  else
    let missing_frames := (expected_length - Z.of_nat (length data)) / channels seg in
    if missing_frames =? 0 then Ok (_spawn seg data)
    else if flt (frame_count_ms seg 2) (fof_int missing_frames)
    then Raise (TooManyMissingFrames missing_frames)
    else
      let silence := repeat 0 (length (firstn (Z.to_nat (channels seg)) data)) in
      Ok (_spawn seg (data ++ concat (repeat silence (Z.to_nat missing_frames))))))).

Section Mixing.
Variable ratecv : list Z -> Z -> Z -> Z -> Z -> list Z.

(** [seg.overlay(other, position)], once through ([times] is 1).  Both
    segments are brought to one format; the base is cut at [position] into
    [seg1[:position]] and [seg1[position:]]; the samples of [other] are
    added to those of the second part, as far as it reaches; and the two
    parts are put together again.  The cuts are made in whole milliseconds,
    so the result has the frames of [len(seg1)] milliseconds: a base that is
    longer is cut, and one that is shorter is filled up. *)
Definition overlay (seg other : AudioSegment) (position : Z) : result AudioSegment :=
  bind (_sync ratecv seg other) (fun p =>
    let seg1 := fst p in
    let seg2 := snd p in
    bind (__getitem__ seg1 None (Some position)) (fun head =>
    bind (__getitem__ seg1 (Some position) None) (fun tail =>
    let seg1_data := samples tail in
    let remaining := length seg1_data in
    let seg2_data :=
      if (remaining <=? length (samples seg2))%nat then firstn remaining (samples seg2)
      else samples seg2 in
    let seg2_len := length seg2_data in
    Ok (_spawn seg1
          (samples head
           ++ audioop.add (sample_width seg1) (firstn seg2_len seg1_data) seg2_data
           ++ skipn seg2_len seg1_data))))).

End Mixing.

End Clock.

End pydub.

(* ===================================================================== *)
(** * app.py *)
(* ===================================================================== *)

Module app.
Import Python pydub.

(** What a run of a command leaves behind: the files it decoded and the
    files it wrote. *)
Inductive event : Type :=
| Loaded (name : string)
| Exported (name : string) (format : string) (seg : AudioSegment).

(** How a command ends: it returns, or the handler at its end turns the
    exception [cause] into [typer.Exit(code=1)]. *)
Inductive exit : Type :=
| Exit0
| Exit1 (cause : exn).

(** Code that writes to the trace of events and may raise.  [None] is a
    loop that has not ended within the steps it was given. *)
Definition io (A : Type) : Type := list event -> option (result A * list event).

Definition ret {A : Type} (a : A) : io A := fun tr => Some (Ok a, tr).

Definition raise {A : Type} (e : exn) : io A := fun tr => Some (Raise e, tr).

Definition and_then {A B : Type} (m : io A) (k : A -> io B) : io B :=
  fun tr =>
    match m tr with
    | Some (Ok a, tr') => k a tr'
    | Some (Raise e, tr') => Some (Raise e, tr')
    | None => None
    end.

Definition emit (ev : event) : io unit := fun tr => Some (Ok tt, tr ++ [ev]).

Definition lift {A : Type} (r : result A) : io A := fun tr => Some (r, tr).

Definition within_steps {A : Type} (o : option A) : io A :=
  fun tr => match o with Some a => Some (Ok a, tr) | None => None end.

Notation "x <- m ;; k" := (and_then m (fun x => k))
  (at level 100, m at next level, right associativity).

(** The whole of a command: its body, then
    [except Exception as e: ... raise typer.Exit(code=1) from e]. *)
Definition command (body : io unit) : option (exit * list event) :=
  match body [] with
  | Some (Ok _, tr) => Some (Exit0, tr)
  | Some (Raise e, tr) => Some (Exit1 e, tr)
  | None => None
  end.

Section Commands.
Context {F : Type} `{PyFloat F}.

(** A file of the stems directory, as its readers see it: audio that
    [AudioSegment.from_file] decodes to [seg], or a JSON object whose
    "beats" entry, when it has one, is [beats]. *)
Inductive file : Type :=
| Audio (seg : AudioSegment)
| Json (beats : option (list F)).

(** The stems directory: the file under each name, if there is one. *)
Definition directory : Type := string -> option file.

(** [(stems_dir / n).exists()]. *)
Definition file_exists (dir : directory) (n : string) : bool :=
  match dir n with Some _ => true | None => false end.

(** [str(stems_dir / n)]. *)
Definition path_of (stems_dir n : string) : string := (stems_dir ++ "/" ++ n)%string.

(** The external collaborators of the mixdown: the resampler of audioop,
    the 20 ms noise burst of [WhiteNoise().to_audio_segment(duration=20)],
    pydub's [fade_out], and the beat times librosa estimates from a mix. *)
Variable ratecv : list Z -> Z -> Z -> Z -> Z -> list Z.
Variable white_noise : AudioSegment.
Variable fade_out : Z -> AudioSegment -> AudioSegment.
Variable beat_track : AudioSegment -> list F.

(** [_load_seg(path)]. *)
Definition _load_seg (dir : directory) (stems_dir name : string) : io AudioSegment :=
  _ <- emit (Loaded name) ;;
  match dir name with
  | Some (Audio seg) => lift (set_channels 2 seg)
  | Some (Json _) => raise (CouldntDecodeError (path_of stems_dir name))
  | None => raise (FileNotFoundError (path_of stems_dir name))
  end.

(** [max(xs)] of a list of ints. *)
Definition py_max (xs : list Z) : result Z :=
  match xs with
  | [] => Raise (ValueError "max() arg is an empty sequence")
  | x :: rest => Ok (fold_left Z.max rest x)
  end.

(** [int(s.duration_seconds * 1000)]. *)
Definition duration_ms (s : AudioSegment) : result Z :=
  int_of (fmul (duration_seconds s) (fof_int 1000)).

(** [(int(s.duration_seconds * 1000) for s in segs)], drawn to its end. *)
Fixpoint durations_ms (segs : list AudioSegment) : result (list Z) :=
  match segs with
  | [] => Ok []
  | s :: rest =>
      bind (duration_ms s) (fun d => bind (durations_ms rest) (fun ds => Ok (d :: ds)))
  end.

(** [_longest_duration_ms(segs)]. *)
Definition _longest_duration_ms (segs : list AudioSegment) : result Z :=
  bind (durations_ms segs) py_max.

(** [max(0.0, x)]: the second argument when it is the larger one. *)
Definition max0 (x : R) : R := if Rlt_dec 0 x then x else 0%R.

(** [_make_click_sample(sample_rate, level_db)]. *)
Definition _make_click_sample (sample_rate : Z) (level_db : R) : AudioSegment :=
  let click := set_frame_rate ratecv sample_rate white_noise in
  let click := fade_out 15 click in
  if Rlt_dec level_db 0 then sub_gain click (max0 (- level_db)) else apply_gain click level_db.

(** ** [make_backing], stage by stage *)

Definition required : list string :=
  ["vocals.wav"; "drums.wav"; "bass.wav"; "other.wav"; "mix.wav"]%string.

(** The text before the path in the message of line 217. *)
Definition missing_file_message : string := "必要ファイルがありません: ".

(** Lines 215-217: the first required file that is absent raises. *)
Fixpoint check_required (dir : directory) (stems_dir : string) (names : list string)
  : result unit :=
  match names with
  | [] => Ok tt
  | n :: rest =>
      if file_exists dir n then check_required dir stems_dir rest
      else Raise (FileNotFoundError (missing_file_message ++ path_of stems_dir n))
  end.

(** Line 227: the silent stereo canvas. *)
Definition canvas (max_len rate : Z) : result AudioSegment :=
  bind (silent max_len rate) (set_channels 2).

(** Lines 229-230. *)
Definition attenuate (drum_gain : option R) (drums : AudioSegment) : AudioSegment :=
  match drum_gain with
  | Some g => apply_gain drums g
  | None => drums
  end.

(** Lines 232-235. *)
Definition overlay_stems (base vocals bass other drums : AudioSegment) : result AudioSegment :=
  bind (overlay (F:=F) ratecv base vocals 0) (fun backing =>
  bind (overlay (F:=F) ratecv backing bass 0) (fun backing =>
  bind (overlay (F:=F) ratecv backing other 0) (fun backing =>
  overlay (F:=F) ratecv backing drums 0))).

(** Lines 255-257: the loop [while t <= total], run for at most [steps]
    tests of its condition. *)
Fixpoint beat_loop (steps : nat) (step total t : F) (beats_sec : list F) : option (list F) :=
  match steps with
  | O => None
  | S steps' =>
      if fle t total
      then beat_loop steps' step total (fadd t step) (beats_sec ++ [round6 t])
      else Some beats_sec
  end.

(** Lines 251-257: the fixed-tempo branch. *)
Definition fixed_tempo_beats (steps : nat) (bpm : option F) (max_len : Z) : option (list F) :=
  match bpm with
  | Some b =>
      if truthy b && flt (fof_int 0) b then
        let step := fdiv (fof_int 60) b in
        let total := fdiv (fof_int max_len) (fof_int 1000) in
        beat_loop steps step total (fof_int 0) []
      else Some []
  | None => Some []
  end.

(** Lines 240-250: the beats of metadata.json, or else librosa's. *)
Definition auto_beats (dir : directory) : result (list F) :=
  match dir "metadata.json"%string with
  | Some (Json (Some beats)) => Ok beats
  | Some (Json None) => Ok []
  | Some (Audio _) => Raise (ValueError "metadata.json is not JSON")
  | None =>
      match dir "mix.wav"%string with
      | Some (Audio mix) => Ok (beat_track mix)
      | _ => Raise (FileNotFoundError "mix.wav")
      end
  end.

(** Lines 237-257. *)
Definition beat_grid (steps : nat) (dir : directory) (with_click auto_bpm : bool)
  (bpm : option F) (max_len : Z) : io (list F) :=
  if with_click then
    if auto_bpm then lift (auto_beats dir)
    else within_steps (fixed_tempo_beats steps bpm max_len)
  else ret [].

(** Line 262: [int(t * 1000)]. *)
Definition click_position (t : F) : result Z := int_of (fmul t (fof_int 1000)).

(** Line 263: [0 <= pos < max_len]. *)
Definition in_canvas (max_len pos : Z) : bool := (0 <=? pos) && (pos <? max_len).

(** Lines 261-264. *)
Fixpoint overlay_clicks (click : AudioSegment) (max_len : Z) (beats_sec : list F)
  (backing : AudioSegment) : result AudioSegment :=
  match beats_sec with
  | [] => Ok backing
  | t :: rest =>
      bind (click_position t) (fun pos =>
        if in_canvas max_len pos
        then bind (overlay (F:=F) ratecv backing click pos) (overlay_clicks click max_len rest)
        else overlay_clicks click max_len rest backing)
  end.

(** Lines 259-264. *)
Definition click_stage (frame_rate max_len : Z) (beats_sec : list F) (backing : AudioSegment)
  : result AudioSegment :=
  match beats_sec with
  | [] => Ok backing
  | _ :: _ => overlay_clicks (_make_click_sample frame_rate (-6)) max_len beats_sec backing
  end.

(** Line 267. *)
Definition normalize_gain (backing : AudioSegment) : R :=
  match max_dBFS backing with
  | dB m => (-1 - m)%R
  | NegInf => 0%R
  end.

(** Lines 267-268. *)
Definition normalize (backing : AudioSegment) : AudioSegment :=
  apply_gain backing (normalize_gain backing).

(** Lines 219-268: from the loaded stems to the normalized backing. *)
Definition mixdown (steps : nat) (dir : directory) (auto_bpm : bool) (bpm : option F)
  (with_click : bool) (drum_gain : option R) (vocals drums bass other mix : AudioSegment)
  : io AudioSegment :=
  let frame_rate := frame_rate mix in
  max_len <- lift (_longest_duration_ms [vocals; drums; bass; other; mix]) ;;
  base <- lift (canvas max_len frame_rate) ;;
  let drums := attenuate drum_gain drums in
  backing <- lift (overlay_stems base vocals bass other drums) ;;
  beats_sec <- beat_grid steps dir with_click auto_bpm bpm max_len ;;
  backing <- lift (click_stage frame_rate max_len beats_sec backing) ;;
  ret (normalize backing).

(** [make_backing]: the body of the [try]. *)
Definition make_backing_body (steps : nat) (dir : directory) (stems_dir : string)
  (auto_bpm : bool) (bpm : option F) (with_click : bool) (drum_gain : option R) (mp3 : bool)
  : io unit :=
  _ <- lift (check_required dir stems_dir required) ;;
  vocals <- _load_seg dir stems_dir "vocals.wav" ;;
  drums <- _load_seg dir stems_dir "drums.wav" ;;
  bass <- _load_seg dir stems_dir "bass.wav" ;;
  other <- _load_seg dir stems_dir "other.wav" ;;
  mix <- _load_seg dir stems_dir "mix.wav" ;;
  backing <- mixdown steps dir auto_bpm bpm with_click drum_gain vocals drums bass other mix ;;
  _ <- emit (Exported "backing.wav" "wav" backing) ;;
  if mp3 then emit (Exported "backing.mp3" "mp3" backing) else ret tt.

(** [make_backing]. *)
Definition make_backing (steps : nat) (dir : directory) (stems_dir : string)
  (auto_bpm : bool) (bpm : option F) (with_click : bool) (drum_gain : option R) (mp3 : bool)
  : option (exit * list event) :=
  command (make_backing_body steps dir stems_dir auto_bpm bpm with_click drum_gain mp3).

End Commands.

End app.

(* ===================================================================== *)
(** * The specification's reading of the same stages *)
(* ===================================================================== *)

(** The definitions of this module follow the words of the specification,
    not the code; the theorems below compare the two. *)
Module spec.
Import Python pydub.

(** Section 4.2: "This produces floor(T/step) + 1 beats", [step = 60 / bpm]. *)
Definition beat_count (bpm T : Q) : Z := Qfloor (T / (60 / bpm)) + 1.

(** Section 4.2: the timestamps [t_i = i * step] with [t_i <= T], each
    rounded to 6 decimal digits. *)
Definition beat_grid (bpm T : Q) : list Q :=
  map (fun i => round6 (inject_Z (Z.of_nat i) * (60 / bpm))%Q)
      (seq 0 (Z.to_nat (beat_count bpm T))).

Section Clicks.
Context {F : Type} `{PyFloat F}.
Variable ratecv : list Z -> Z -> Z -> Z -> Z -> list Z.

(** Section 4.3, step 5: [pos = round(t * 1000)]. *)
Definition click_position (t : F) : result Z := round0 (fmul t (fof_int 1000)).

(** Section 4.3, step 5: the click is overlaid at every such position with
    [0 <= pos < mixdown_duration_ms]; the others are skipped. *)
Fixpoint overlay_clicks (click : AudioSegment) (max_len : Z) (beats_sec : list F)
  (backing : AudioSegment) : result AudioSegment :=
  match beats_sec with
  | [] => Ok backing
  | t :: rest =>
      bind (click_position t) (fun pos =>
        if app.in_canvas max_len pos
        then bind (overlay (F:=F) ratecv backing click pos) (overlay_clicks click max_len rest)
        else overlay_clicks click max_len rest backing)
  end.

End Clicks.

(** Section 9: "the simpler uniform decibel-to-linear conversion": the level
    is added whatever its sign. *)
Definition make_click_sample (ratecv : list Z -> Z -> Z -> Z -> Z -> list Z)
  (white_noise : AudioSegment) (fade_out : Z -> AudioSegment -> AudioSegment)
  (sample_rate : Z) (level_db : R) : AudioSegment :=
  apply_gain (fade_out 15 (set_frame_rate ratecv sample_rate white_noise)) level_db.

(** Section 8: "the same mixdown with drums omitted entirely from
    overlay": vocals, bass and other alone on the canvas. *)
Definition overlay_stems_without_drums {F : Type} `{PyFloat F}
  (ratecv : list Z -> Z -> Z -> Z -> Z -> list Z)
  (base vocals bass other : AudioSegment) : result AudioSegment :=
  bind (overlay (F:=F) ratecv base vocals 0) (fun backing =>
  bind (overlay (F:=F) ratecv backing bass 0) (fun backing =>
  overlay (F:=F) ratecv backing other 0)).

End spec.

(* ===================================================================== *)
(** * Notions the statements use *)
(* ===================================================================== *)

Import Python pydub app.

Section Notions.
Context {F : Type} `{PyFloat F}.
Variable ratecv : list Z -> Z -> Z -> Z -> Z -> list Z.

(** The value of [t] when the loop of the fixed-tempo branch tests its
    condition for the [i]-th time: [0.0] after [i] additions of [step]. *)
Definition running_sum (step : F) (i : nat) : F :=
  Nat.iter i (fun t => fadd t step) (fof_int 0).

(** The guard of line 251 fails: [bpm] is absent, or [bpm > 0] is false. *)
Definition not_positive (bpm : option F) : Prop :=
  match bpm with
  | Some b => flt (fof_int 0) b = false
  | None => True
  end.

(** The positions of all the beats, when each [int(t * 1000)] is defined. *)
Fixpoint click_positions (beats_sec : list F) : result (list Z) :=
  match beats_sec with
  | [] => Ok []
  | t :: rest =>
      bind (click_position t) (fun pos =>
      bind (click_positions rest) (fun ps => Ok (pos :: ps)))
  end.

(** The click overlaid at each position of a list, in turn. *)
Fixpoint overlay_at (click : AudioSegment) (positions : list Z) (backing : AudioSegment)
  : result AudioSegment :=
  match positions with
  | [] => Ok backing
  | pos :: rest => bind (overlay (F:=F) ratecv backing click pos) (overlay_at click rest)
  end.


End Notions.

(** A resampler for segments that all have one frame rate, on which
    [ratecv] is never called. *)
Definition no_resampling : list Z -> Z -> Z -> Z -> Z -> list Z := fun data _ _ _ _ => data.

(** A sample that fits the width. *)
Definition in_range (width s : Z) : Prop := audioop.minval width <= s <= audioop.maxval width.

(** A segment as a decoder produces it: a width of at least one byte, and
    samples that fit it. *)
Definition well_formed (seg : AudioSegment) : Prop :=
  1 <= sample_width seg /\ Forall (in_range (sample_width seg)) (samples seg).


(** A segment with the channels and the frame rate of [base]: what the
    specification asks of all the buffers of one mixdown.  The sample width
    is left free. *)
Definition shares_layout (base s : AudioSegment) : Prop :=
  channels s = channels base /\ frame_rate s = frame_rate base.

(** The samples of a segment at the sample width [W], as
    [set_sample_width] gives them. *)
Definition at_width (W : Z) (seg : AudioSegment) : list Z :=
  audioop.lin2lin (samples seg) (sample_width seg) W.


(** Two segments of the same extent: as many samples, at the same rate, in
    as many channels. *)
Definition same_shape (a b : AudioSegment) : Prop :=
  length (samples a) = length (samples b)
  /\ frame_rate a = frame_rate b /\ channels a = channels b.

(** [seg.max]: the peak amplitude. *)
Definition peak (seg : AudioSegment) : Z := audioop.max (samples seg).

(** The linear factor of -1 dB, [10 ** (-1 / 20)]. *)
Definition kappa : R := Rpower 10 (-1 / 20).

(** The amplitude that is -1.0 dBFS at the width of a segment. *)
Definition minus_one_dBFS (seg : AudioSegment) : R :=
  (kappa * IZR (max_possible_amplitude seg))%R.

(** What [overlay] at position 0 leaves in the samples [a] of the base when
    [b] is laid over them. *)
Definition mixed (width : Z) (a b : list Z) : list Z :=
  let n := Nat.min (length b) (length a) in
  audioop.add width (firstn n a) (firstn n b) ++ skipn n a.





(** A segment of whole milliseconds: the frames that [len(seg)]
    milliseconds make are the frames it has, so that [seg[:0]] is empty and
    [seg[0:]] is [seg] itself. *)
Definition whole_ms {F : Type} `{PyFloat F} (seg : AudioSegment) : Prop :=
  exists l, __len__ (F:=F) seg = Ok l /\ 0 <= l
    /\ _parse_position (F:=F) seg 0 = Ok 0
    /\ _parse_position (F:=F) seg l = Ok (frame_count seg)
    /\ Z.of_nat (length (samples seg)) = frame_count seg * channels seg.



(** ** Sample inputs *)

(** Two frames of stereo silence at 1000 frames per second. *)
Definition silent_stem : AudioSegment := mkSeg [0; 0; 0; 0] 2 1000 2.

(** A fade that leaves the segment as it is. *)
Definition no_fade : Z -> AudioSegment -> AudioSegment := fun _ seg => seg.

(** A stems directory that has every file but bass.wav. *)
Definition stems_without_bass {F : Type} : directory (F:=F) :=
  fun n => if String.eqb n "bass.wav" then None else Some (Audio silent_stem).

(* ===================================================================== *)
(** * app.py: the commands around the mixdown *)
(* ===================================================================== *)

(** [separate] and [analyze], with the helpers [normalize_song_name],
    [run_demucs], [find_stems_dir] and [copy_stems].  ffmpeg, the Demucs
    process, the walk of the directory tree and librosa are outside the
    program: what they return is a parameter of the command that calls
    them. *)
Module commands.
Import Ascii Python pydub app.

(** ** Song names *)

(** [s.rfind(c)], with [None] for Python's -1: the scan keeps the index of
    the last [c] it has passed. *)
Fixpoint rfind_from (c : ascii) (s : string) (i : nat) (last : option nat) : option nat :=
  match s with
  | EmptyString => last
  | String a s' => rfind_from c s' (S i) (if Ascii.eqb a c then Some i else last)
  end.

Definition rfind (c : ascii) (s : string) : option nat := rfind_from c s 0 None.

(** [PurePath.stem] of a path whose final component is [name] (pathlib up to
    Python 3.13): with [i = name.rfind('.')], it is [name[:i]] when
    [0 < i < len(name) - 1], and [name] otherwise.  A string is the UTF-8
    encoding of the name: the dot and the space are single bytes that no
    other character contains, so slicing at the last dot gives the same
    text in bytes as in characters. *)
Definition stem (name : string) : string :=
  match rfind "." name with
  | Some i =>
      if (0 <? i)%nat && (i <? String.length name - 1)%nat then substring 0 i name else name
  | None => name
  end.

(** [s.replace(old, new)] for one-character [old] and [new]. *)
Fixpoint replace_char (old new : ascii) (s : string) : string :=
  match s with
  | EmptyString => EmptyString
  | String a s' => String (if Ascii.eqb a old then new else a) (replace_char old new s')
  end.

(** [normalize_song_name(path)], as a function of [path.name]. *)
Definition normalize_song_name (name : string) : string :=
  replace_char " " "_" (stem name).

(** [c in s]. *)
Fixpoint occurs (c : ascii) (s : string) : bool :=
  match s with
  | EmptyString => false
  | String a s' => Ascii.eqb a c || occurs c s'
  end.

(** ** Folders *)

(** The files of one directory, by name. *)
Definition folder (A : Type) : Type := string -> option A.

(** The folder after a file has been written under [n]. *)
Definition write {A : Type} (d : folder A) (n : string) (a : A) : folder A :=
  fun m => if String.eqb m n then Some a else d m.

(** The four stems Demucs separates. *)
Definition stem_files : list string :=
  ["vocals.wav"; "drums.wav"; "bass.wav"; "other.wav"]%string.

(** The text before the path in the message of line 101. *)
Definition missing_stem_message : string := "必須stemがありません: ".

(** Lines 98-102: the loop of [copy_stems], over the names left to copy. *)
Fixpoint copy_loop {A : Type} (src_dir : string) (src dest : folder A) (names : list string)
  : result unit * folder A :=
  match names with
  | [] => (Ok tt, dest)
  | n :: rest =>
      match src n with
      | Some a => copy_loop src_dir src (write dest n a) rest
      | None => (Raise (FileNotFoundError (missing_stem_message ++ path_of src_dir n)), dest)
      end
  end.

(** [copy_stems(src_dir, dest_dir)]: the outcome, and the destination
    folder it leaves. *)
Definition copy_stems {A : Type} (src_dir : string) (src dest : folder A)
  : result unit * folder A :=
  copy_loop src_dir src dest stem_files.

(** ** Finding what Demucs wrote *)

(** A directory below the output directory of Demucs: its path, the name
    of its last component, and its files. *)
Record found_dir (A : Type) : Type := mkDir {
  dir_path : string;
  dir_name : string;
  dir_files : folder A
}.
Arguments mkDir {A} dir_path dir_name dir_files.
Arguments dir_path {A} f.
Arguments dir_name {A} f.
Arguments dir_files {A} f.

Section Find.
Context {A : Type}.

(** [str.lower]. *)
Variable lower : string -> string.

(** [all(s.exists() for s in stems)] of lines 87-88. *)
Definition has_all_stems (d : found_dir A) : bool :=
  forallb (fun n => match dir_files d n with Some _ => true | None => false end) stem_files.

(** Line 81: [p.parent.name.lower() == song_name.lower()]. *)
Definition named_like (song_name : string) (d : found_dir A) : bool :=
  String.eqb (lower (dir_name d)) (lower song_name).

(** The text of the exception of line 91. *)
Definition no_output_message : string := "Demucsの出力ディレクトリが見つかりませんでした。".

(** [find_stems_dir(temp_out_dir, song_name)].  [vocals_parents] are the
    parents of the paths [temp_out_dir.rglob("vocals.wav")] yields, and
    [all_dirs] the directories among the paths [temp_out_dir.rglob("*")]
    yields, each in the order of the walk. *)
Definition find_stems_dir (vocals_parents all_dirs : list (found_dir A)) (song_name : string)
  : result (found_dir A) :=
  let candidates := filter (named_like song_name) vocals_parents in
  let candidates :=
    match candidates with
    | [] => filter has_all_stems all_dirs
    | _ :: _ => candidates
    end in
  match candidates with
  | [] => Raise (FileNotFoundError no_output_message)
  | d :: _ => Ok d
  end.

End Find.

(** ** [separate] *)

(** What ends [separate] early: an exception of ffmpeg, the RuntimeError
    of line 75 with the return code of Demucs, or the FileNotFoundError of
    [find_stems_dir] or [copy_stems]. *)
Inductive separate_error : Type :=
| FfmpegError
| DemucsFailed (returncode : Z)
| Missing (e : exn).

(** Lines 66-70: the command line of Demucs, from the result of
    [which("demucs")]. *)
Definition demucs_command (demucs_bin : option string)
  (sys_executable model temp_out_dir input_wav : string) : list string :=
  match demucs_bin with
  | Some bin => [bin; "-n"; model; "-o"; temp_out_dir; input_wav]%string
  | None => [sys_executable; "-m"; "demucs"; "-n"; model; "-o"; temp_out_dir; input_wav]%string
  end.

(** Line 116: the destination directory. *)
Definition dest_root (out_dir : option string) (song_name : string) : string :=
  match out_dir with
  | Some d => d
  | None => path_of "outputs" song_name
  end.

(** The destination directory as [separate] acts on it: its files, and
    whether its subdirectory [_demucs_out] is there. *)
Record workspace (A : Type) : Type := mkWorkspace {
  dest_files : folder A;
  temp_out_exists : bool
}.
Arguments mkWorkspace {A} dest_files temp_out_exists.
Arguments dest_files {A} w.
Arguments temp_out_exists {A} w.

Section Separation.
Context {A : Type}.
Variable lower : string -> string.

(** The world outside one run of [separate]: the WAV file ffmpeg writes,
    if it does not fail; the result of [which("demucs")] and
    [sys.executable]; the return code of the process [subprocess.run]
    starts; and what the two walks of [find_stems_dir] meet below
    [_demucs_out] once the process has ended. *)
Variable ffmpeg : option A.
Variable which_demucs : option string.
Variable sys_executable : string.
Variable subprocess_run : list string -> Z.
Variable vocals_parents all_dirs : list (found_dir A).

(** [run_demucs(input_wav, temp_out_dir, model)], after [ensure_dir]. *)
Definition run_demucs (input_wav temp_out_dir model : string) : option separate_error :=
  let cmd := demucs_command which_demucs sys_executable model temp_out_dir input_wav in
  let returncode := subprocess_run cmd in
  if returncode =? 0 then None else Some (DemucsFailed returncode).

(** Lines 115-131 of [separate]: the exception that ends the body, if
    any, and the destination directory when the body is left. *)
Definition separate_body (song model : string) (out_dir : option string) (w : workspace A)
  : option separate_error * workspace A :=
  let song_name := normalize_song_name song in
  let dest := dest_root out_dir song_name in
  let mix_wav := path_of dest "mix.wav" in
  match ffmpeg with
  | None => (Some FfmpegError, w)
  | Some mix =>
      let temp_out := path_of dest "_demucs_out" in
      let w := mkWorkspace (write (dest_files w) "mix.wav" mix) true in
      match run_demucs mix_wav temp_out model with
      | Some e => (Some e, w)
      | None =>
          match find_stems_dir lower vocals_parents all_dirs song_name with
          | Raise e => (Some (Missing e), w)
          | Ok stems_src =>
              match copy_stems (dir_path stems_src) (dir_files stems_src) (dest_files w) with
              | (Raise e, files) => (Some (Missing e), mkWorkspace files true)
              | (Ok _, files) => (None, mkWorkspace files false)
              end
          end
      end
  end.

(** [separate]: the exit code, and the destination directory it leaves. *)
Definition separate (song model : string) (out_dir : option string) (w : workspace A)
  : Z * workspace A :=
  match separate_body song model out_dir w with
  | (None, w') => (0, w')
  | (Some _, w') => (1, w')
  end.

End Separation.

(** ** [analyze] *)

Section Analyze.
Context {F : Type} `{PyFloat F}.

(** The beat times [librosa.frames_to_time(beats, sr=sr).tolist()] has for
    a mix, as in [make_backing]. *)
Variable beat_track : AudioSegment -> list F.

(** Lines 160-165: the metadata written for a mix.  [float(f"{t:.6f}")] is
    [round(t, 6)]: the same decimal digits, read back as a float.  The "bpm"
    entry does not show in [Json]. *)
Definition metadata_of (mix : AudioSegment) : file (F:=F) :=
  Json (Some (map round6 (beat_track mix))).

(** [analyze(mix_path)] on the directory of [mix_path], where [mix_name] is
    the name of the file: the exit code, and the directory [analyze]
    leaves.  A file that librosa cannot load ends the command with code 1;
    a path that does not exist is refused by typer ([exists=True]) before
    the body runs, with the code 2 of a usage error. *)
Definition analyze (dir : directory (F:=F)) (mix_name : string) : Z * directory (F:=F) :=
  match dir mix_name with
  | Some (Audio mix) => (0, write dir "metadata.json" (metadata_of mix))
  | Some (Json _) => (1, dir)
  | None => (2, dir)
  end.

End Analyze.

(** ** Sample inputs *)

(** A source directory that has every stem, one that lacks bass.wav, and a
    destination that already holds a bass.wav and a mix.wav. *)
Definition full_source : folder Z :=
  fun n => if existsb (String.eqb n) stem_files then Some 1 else None.

Definition source_without_bass : folder Z :=
  fun n => if String.eqb n "bass.wav" then None else full_source n.

Definition old_files : folder Z :=
  fun n => if String.eqb n "bass.wav" || String.eqb n "mix.wav" then Some 0 else None.

(** The directory Demucs writes for a song, and one that only has a
    vocals.wav. *)
Definition demucs_dir : found_dir Z := mkDir "out/htdemucs/song" "song" full_source.

Definition vocals_only_dir : found_dir Z :=
  mkDir "out/other/Song" "Song"
        (fun n => if String.eqb n "vocals.wav" then Some 2 else None).

End commands.

(** A stems directory in which every name is two frames of silence, one
    that lacks bass.wav and mix.wav, and one with a metadata.json beside
    the stems. *)
Definition all_silent {F : Type} : directory (F:=F) := fun _ => Some (Audio silent_stem).

Definition stems_without_bass_and_mix {F : Type} : directory (F:=F) :=
  fun n => if String.eqb n "bass.wav" || String.eqb n "mix.wav" then None
           else Some (Audio silent_stem).

Definition stems_with_metadata {F : Type} `{PyFloat F} : directory (F:=F) :=
  fun n => if String.eqb n "metadata.json" then Some (Json (Some [fof_int 1]))
           else Some (Audio silent_stem).

(** A stems directory whose metadata.json has no "beats" entry. *)
Definition stems_with_empty_metadata {F : Type} : directory (F:=F) :=
  fun n => if String.eqb n "metadata.json" then Some (Json None)
           else Some (Audio silent_stem).

(* ===================================================================== *)
(** * The click generator *)
(* ===================================================================== *)

Lemma max0_of_positive (x : R) : (0 < x)%R -> max0 x = x.
Proof. intros Hx. unfold max0. destruct (Rlt_dec 0 x); [reflexivity | contradiction]. Qed.

(** C9.  For every level, the two-branch expression of [_make_click_sample]
    (subtract [max(0.0, -level_db)] below zero, add [level_db] otherwise)
    gives the click of the uniform expression that adds [level_db]; the two
    branches therefore meet at [level_db = 0]. *)
Theorem click_gain_branches_agree :
  forall ratecv white_noise fade_out sample_rate level_db,
    _make_click_sample ratecv white_noise fade_out sample_rate level_db
    = spec.make_click_sample ratecv white_noise fade_out sample_rate level_db.
Proof.
  intros. unfold _make_click_sample, spec.make_click_sample.
  destruct (Rlt_dec level_db 0) as [Hneg | Hpos]; [ | reflexivity].
  unfold sub_gain. rewrite max0_of_positive by lra.
  f_equal. lra.
Qed.

(* ===================================================================== *)
(** * Running a command *)
(* ===================================================================== *)

Lemma and_then_ext {A B : Type} (m : io A) (k k' : A -> io B) tr :
  (forall a tr', k a tr' = k' a tr') -> and_then m k tr = and_then m k' tr.
Proof.
  intros Hk. unfold and_then. destruct (m tr) as [[[a|e] tr']|]; auto.
Qed.

Lemma and_then_cong {A B : Type} (m m' : io A) (k : A -> io B) tr :
  m tr = m' tr -> and_then m k tr = and_then m' k tr.
Proof. intros Hm. unfold and_then. rewrite Hm. reflexivity. Qed.

Section Commands.
Context {F : Type} `{PyFloat F}.
Variable ratecv : list Z -> Z -> Z -> Z -> Z -> list Z.
Variable white_noise : AudioSegment.
Variable fade_out : Z -> AudioSegment -> AudioSegment.
Variable beat_track : AudioSegment -> list F.

(** ** Validation *)

Lemma check_required_missing (dir : directory (F:=F)) stems_dir names :
  (exists n, In n names /\ dir n = None) ->
  exists n, In n names /\ dir n = None /\
    check_required dir stems_dir names
    = Raise (FileNotFoundError (missing_file_message ++ path_of stems_dir n)).
Proof.
  induction names as [|m rest IH]; intros [n [Hin Hn]].
  - destruct Hin.
  - simpl. unfold file_exists. destruct (dir m) eqn:Hm.
    + destruct Hin as [Heq | Hin]; [subst m; congruence|].
      destruct (IH (ex_intro _ n (conj Hin Hn))) as [n' [Hin' [Hn' Hc]]].
      exists n'. repeat split; auto using in_cons.
    + exists m. repeat split; auto using in_eq.
Qed.

(** C5.  When a required stem is absent from the directory, [make_backing]
    ends with exit code 1, caused by a FileNotFoundError whose message names
    the path of an absent required file, and its trace is empty: no stem was
    decoded and nothing was exported. *)
Theorem missing_stem_fails_first steps (dir : directory (F:=F)) stems_dir
  auto_bpm bpm with_click drum_gain mp3 :
  (exists n, In n required /\ dir n = None) ->
  exists n, In n required /\ dir n = None /\
    make_backing ratecv white_noise fade_out beat_track steps dir stems_dir
      auto_bpm bpm with_click drum_gain mp3
    = Some (Exit1 (FileNotFoundError (missing_file_message ++ path_of stems_dir n)), []).
Proof.
  intros Hmiss.
  destruct (check_required_missing dir stems_dir required Hmiss) as [n [Hin [Hn Hc]]].
  exists n. repeat split; auto.
  unfold make_backing, command, make_backing_body, and_then, lift.
  rewrite Hc. reflexivity.
Qed.

(** ** Channels *)


(** ** Click overlay *)

(** C4, as amended.  When every [int(t * 1000)] is defined, the click loop
    overlays the click at exactly those positions [int(t * 1000)] that
    satisfy [0 <= pos < max_len], in the order of the beats, and passes over
    the others without raising. *)
Theorem clicks_at_truncated_positions click max_len beats_sec positions backing :
  click_positions beats_sec = Ok positions ->
  overlay_clicks ratecv click max_len beats_sec backing
  = overlay_at ratecv click (filter (in_canvas max_len) positions) backing.
Proof.
  revert positions backing.
  induction beats_sec as [|t rest IH]; intros positions backing Hpos; simpl in *.
  - injection Hpos as <-. reflexivity.
  - destruct (click_position t) as [pos|e]; simpl in *; [|discriminate].
    destruct (click_positions rest) as [ps|e]; simpl in *; [|discriminate].
    injection Hpos as <-. simpl.
    destruct (in_canvas max_len pos); simpl.
    + destruct (overlay ratecv backing click pos); simpl; auto.
    + auto.
Qed.

(** ** Fixed tempo: the guard *)

Lemma fixed_tempo_not_positive steps bpm max_len :
  not_positive bpm -> fixed_tempo_beats steps bpm max_len = Some [].
Proof.
  unfold not_positive, fixed_tempo_beats. destruct bpm as [b|]; [|reflexivity].
  intros ->. rewrite andb_false_r. reflexivity.
Qed.

Lemma mixdown_not_positive steps dir bpm drum_gain vocals drums bass other mix tr :
  not_positive bpm ->
  mixdown ratecv white_noise fade_out beat_track steps dir false bpm true drum_gain
    vocals drums bass other mix tr
  = mixdown ratecv white_noise fade_out beat_track steps dir false bpm false drum_gain
      vocals drums bass other mix tr.
Proof.
  intros Hb. unfold mixdown.
  repeat (apply and_then_ext; intros).
  apply and_then_cong. unfold beat_grid.
  rewrite fixed_tempo_not_positive by assumption. reflexivity.
Qed.

(** C7, as amended.  When the fixed-tempo branch is reached with [bpm]
    absent or not above zero, nothing is raised: the beat grid is empty and
    [make_backing] runs exactly as it does without click overlay. *)
Theorem unusable_bpm_gives_no_clicks steps dir stems_dir bpm drum_gain mp3 max_len tr :
  not_positive bpm ->
  beat_grid beat_track steps dir true false bpm max_len tr = Some (Ok [], tr)
  /\ make_backing ratecv white_noise fade_out beat_track steps dir stems_dir
       false bpm true drum_gain mp3
     = make_backing ratecv white_noise fade_out beat_track steps dir stems_dir
         false bpm false drum_gain mp3.
Proof.
  intros Hb. split.
  - unfold beat_grid. rewrite fixed_tempo_not_positive by assumption. reflexivity.
  - unfold make_backing, command.
    replace (make_backing_body ratecv white_noise fade_out beat_track steps dir stems_dir
               false bpm true drum_gain mp3 [])
      with (make_backing_body ratecv white_noise fade_out beat_track steps dir stems_dir
               false bpm false drum_gain mp3 []); [reflexivity|].
    unfold make_backing_body.
    repeat (apply and_then_ext; intros).
    apply and_then_cong. symmetry. apply mixdown_not_positive. assumption.
Qed.

(** ** Fixed tempo: the loop *)

Lemma iter_add_shift (step t : F) (i : nat) :
  Nat.iter i (fun x => fadd x step) (fadd t step) = Nat.iter (S i) (fun x => fadd x step) t.
Proof. symmetry. exact (Nat.iter_succ_r i F (fun x => fadd x step) t). Qed.

(** The loop leaves at the first running sum above [total]. *)
Lemma beat_loop_exit (n : nat) :
  forall steps step total t acc,
    (forall i, (i < n)%nat -> fle (Nat.iter i (fun x => fadd x step) t) total = true) ->
    fle (Nat.iter n (fun x => fadd x step) t) total = false ->
    (n < steps)%nat ->
    beat_loop steps step total t acc
    = Some (acc ++ map (fun i => round6 (Nat.iter i (fun x => fadd x step) t)) (seq 0 n)).
Proof.
  induction n as [|n IH]; intros steps step total t acc Hin Hout Hsteps;
    (destruct steps as [|steps]; [lia|]); simpl beat_loop.
  - simpl in Hout. rewrite Hout. simpl. now rewrite app_nil_r.
  - assert (H0 : fle t total = true) by (apply (Hin 0%nat); lia).
    rewrite H0.
    rewrite (IH steps step total (fadd t step)).
    + rewrite <- app_assoc. simpl. do 3 f_equal.
      rewrite <- seq_shift, map_map. apply map_ext. intros i.
      now rewrite iter_add_shift.
    + intros i Hi. rewrite iter_add_shift. apply Hin. lia.
    + rewrite iter_add_shift. exact Hout.
    + lia.
Qed.

Lemma fixed_tempo_running_sums steps b max_len n :
  truthy b = true -> flt (fof_int 0) b = true ->
  (forall i, (i < n)%nat ->
     fle (running_sum (fdiv (fof_int 60) b) i) (fdiv (fof_int max_len) (fof_int 1000)) = true) ->
  fle (running_sum (fdiv (fof_int 60) b) n) (fdiv (fof_int max_len) (fof_int 1000)) = false ->
  (n < steps)%nat ->
  fixed_tempo_beats steps (Some b) max_len
  = Some (map (fun i => round6 (running_sum (fdiv (fof_int 60) b) i)) (seq 0 n)).
Proof.
  intros Ht Hp Hin Hout Hsteps.
  unfold fixed_tempo_beats. rewrite Ht, Hp. simpl.
  apply (beat_loop_exit n steps _ _ (fof_int 0) []); assumption.
Qed.

End Commands.

(** ** Fixed tempo in exact arithmetic *)

Lemma round_half_even_frac n1 d1 n2 d2 :
  n1 * Zpos d2 = n2 * Zpos d1 -> round_half_even n1 d1 = round_half_even n2 d2.
Proof.
  intros E. unfold round_half_even.
  assert (Hfl : n1 / Zpos d1 = n2 / Zpos d2).
  { transitivity ((n1 * Zpos d2) / (Zpos d1 * Zpos d2)).
    - symmetry. apply Z.div_mul_cancel_r; lia.
    - rewrite E, (Z.mul_comm (Zpos d1) (Zpos d2)). apply Z.div_mul_cancel_r; lia. }
  rewrite <- Hfl. set (fl := n1 / Zpos d1).
  assert (Hc : (2 * (n1 - fl * Zpos d1) ?= Zpos d1) = (2 * (n2 - fl * Zpos d2) ?= Zpos d2)).
  { rewrite (Zmult_compare_compat_l _ _ (Zpos d2)) by lia.
    rewrite (Zmult_compare_compat_l (2 * (n2 - fl * Zpos d2)) _ (Zpos d1)) by lia.
    f_equal; nia. }
  rewrite Hc. reflexivity.
Qed.

Lemma Q_round6_comp (p q : Q) : (p == q)%Q -> Q_round6 p = Q_round6 q.
Proof.
  unfold Qeq, Q_round6. intros E. f_equal.
  apply round_half_even_frac. nia.
Qed.

Lemma running_sum_exact (step : Q) (i : nat) :
  (running_sum step i == inject_Z (Z.of_nat i) * step)%Q.
Proof.
  induction i as [|i IH].
  - unfold running_sum. simpl. ring.
  - unfold running_sum in *. rewrite Nat2Z.inj_succ. simpl Nat.iter.
    simpl fadd. rewrite IH. unfold Z.succ. rewrite inject_Z_plus. ring.
Qed.

Lemma exact_grid (steps : nat) (bpm : Q) (max_len : Z) :
  (0 < bpm)%Q -> 0 <= max_len ->
  let T := (inject_Z max_len / inject_Z 1000)%Q in
  (Z.to_nat (spec.beat_count bpm T) < steps)%nat ->
  fixed_tempo_beats (F:=Q) steps (Some bpm) max_len = Some (spec.beat_grid bpm T)
  /\ Z.of_nat (length (spec.beat_grid bpm T)) = spec.beat_count bpm T.
Proof.
  intros Hbpm Hlen T Hsteps.
  set (step := (60 / bpm)%Q).
  assert (Hstep : (0 < step)%Q).
  { unfold step. apply Qlt_shift_div_l; [assumption | lra]. }
  assert (HT : (0 <= T)%Q).
  { unfold T. apply Qle_shift_div_l; [reflexivity|].
    rewrite Qmult_0_l. change 0%Q with (inject_Z 0). rewrite <- Zle_Qle. assumption. }
  assert (Hq : (0 <= T / step)%Q).
  { apply Qle_shift_div_l; [assumption | lra]. }
  assert (Hfl : 0 <= Qfloor (T / step)).
  { rewrite <- (Qfloor_Z 0) at 1. apply Qfloor_resp_le. assumption. }
  assert (Hcount : spec.beat_count bpm T = Qfloor (T / step) + 1) by reflexivity.
  split.
  - unfold spec.beat_grid.
    rewrite (fixed_tempo_running_sums (F:=Q) _ bpm max_len (Z.to_nat (spec.beat_count bpm T))).
    + f_equal. apply map_ext. intros i. apply Q_round6_comp.
      apply running_sum_exact.
    + unfold truthy. simpl. apply negb_true_iff.
      destruct (Qeq_bool _ _) eqn:E; [|reflexivity].
      apply Qeq_bool_iff in E. change (inject_Z 0) with 0%Q in E. lra.
    + simpl. apply negb_true_iff.
      destruct (Qle_bool _ _) eqn:E; [|reflexivity].
      apply Qle_bool_iff in E. change (inject_Z 0) with 0%Q in E. lra.
    + intros i Hi. simpl. apply Qle_bool_iff.
      rewrite running_sum_exact. change (inject_Z 60) with 60%Q. fold step. fold T.
      assert (Hi' : (inject_Z (Z.of_nat i) <= T / step)%Q).
      { apply Qle_trans with (inject_Z (Qfloor (T / step))); [|apply Qfloor_le].
        rewrite <- Zle_Qle. lia. }
      apply (Qmult_le_compat_r _ _ step) in Hi'; [|lra].
      setoid_replace (T / step * step)%Q with T in Hi' by (field; lra).
      exact Hi'.
    + simpl. destruct (Qle_bool _ _) eqn:E; [|reflexivity]. exfalso.
      apply Qle_bool_iff in E. rewrite running_sum_exact in E. fold T in E.
      assert (Hlt : (T / step < inject_Z (Qfloor (T / step) + 1))%Q) by apply Qlt_floor.
      rewrite Hcount, Z2Nat.id in E by lia.
      apply (Qmult_lt_compat_r _ _ step) in Hlt; [|assumption].
      setoid_replace (T / step * step)%Q with T in Hlt by (field; lra).
      change (inject_Z 60) with 60%Q in E. fold step in E.
      exact (Qlt_not_le _ _ Hlt E).
    + exact Hsteps.
  - unfold spec.beat_grid. rewrite length_map, length_seq. rewrite Z2Nat.id; lia.
Qed.

(* ===================================================================== *)
(** * The claims on beats, clicks and inputs *)
(* ===================================================================== *)

(** ** The fixed-tempo grid *)

(** C1, as amended.  (1) In any arithmetic, when the guard of line 251
    holds and the running sums [0.0 + step + ... + step] stay at most
    [total] before the [n]-th and exceed it at the [n]-th, the loop ends
    within [n + 1] tests and the grid is the list of the first [n] running
    sums, each rounded to 6 digits.  (2) In exact arithmetic, for every
    [bpm > 0] and [max_len >= 0], this is the grid of the specification,
    [round(i * step, 6)] for every [i * step <= T], with
    [floor(T / step) + 1] entries.  (3) In binary64, [bpm = 120] and
    [T = 2.0] give [0.0, 0.5, 1.0, 1.5, 2.0], and [bpm = 60] and [T = 1.5]
    give [0.0, 1.0]. *)
Theorem fixed_tempo_grid :
  (forall (F : Type) (PF : PyFloat F) (steps : nat) (b : F) (max_len : Z) (n : nat),
      truthy b = true -> flt (fof_int 0) b = true ->
      (forall i, (i < n)%nat ->
         fle (running_sum (fdiv (fof_int 60) b) i) (fdiv (fof_int max_len) (fof_int 1000)) = true) ->
      fle (running_sum (fdiv (fof_int 60) b) n) (fdiv (fof_int max_len) (fof_int 1000)) = false ->
      (n < steps)%nat ->
      fixed_tempo_beats steps (Some b) max_len
      = Some (map (fun i => round6 (running_sum (fdiv (fof_int 60) b) i)) (seq 0 n)))
  /\ (forall (steps : nat) (bpm : Q) (max_len : Z),
      (0 < bpm)%Q -> 0 <= max_len ->
      (Z.to_nat (spec.beat_count bpm (inject_Z max_len / inject_Z 1000)) < steps)%nat ->
      fixed_tempo_beats (F:=Q) steps (Some bpm) max_len
      = Some (spec.beat_grid bpm (inject_Z max_len / inject_Z 1000))
      /\ Z.of_nat (length (spec.beat_grid bpm (inject_Z max_len / inject_Z 1000)))
         = spec.beat_count bpm (inject_Z max_len / inject_Z 1000))
  /\ (fixed_tempo_beats (F:=float) 6 (Some (fof_int 120)) 2000
      = Some [0; 0.5; 1; 1.5; 2]%float
      /\ spec.beat_count 120 2 = 5)
  /\ (fixed_tempo_beats (F:=float) 3 (Some (fof_int 60)) 1500 = Some [0; 1]%float
      /\ spec.beat_count 60 (3 # 2) = 2).
Proof.
  split; [|split; [|split]].
  - intros F PF steps b max_len n. apply fixed_tempo_running_sums.
  - intros steps bpm max_len Hb Hm Hs. apply exact_grid; assumption.
  - split; vm_compute; reflexivity.
  - split; vm_compute; reflexivity.
Qed.

(** C1 at [bpm = 120] and two seconds, in exact arithmetic. *)
Lemma fixed_tempo_grid_witness :
  fixed_tempo_beats (F:=Q) 6 (Some 120%Q) 2000
  = Some (spec.beat_grid 120 (inject_Z 2000 / inject_Z 1000))
  /\ Z.of_nat (length (spec.beat_grid 120 (inject_Z 2000 / inject_Z 1000)))
     = spec.beat_count 120 (inject_Z 2000 / inject_Z 1000).
Proof.
  apply (proj1 (proj2 fixed_tempo_grid) 6%nat 120%Q 2000).
  - reflexivity.
  - lia.
  - vm_compute. lia.
Defined.

(** C1 as stated fails in binary64.  With [bpm = 600] and 300 ms the
    third sum [0.1 + 0.1 + 0.1] is above [0.3], and the grid stops at
    [0.0, 0.1, 0.2] where [floor(T / step) + 1 = 4]; with [bpm = 100] and
    30 seconds the grid has 50 entries where [floor(T / step) + 1 = 51]. *)
Lemma fixed_tempo_grid_drifts :
  fixed_tempo_beats (F:=float) 5 (Some (fof_int 600)) 300
  = Some [fof_int 0; fdiv (fof_int 1) (fof_int 10); fdiv (fof_int 2) (fof_int 10)]
  /\ spec.beat_count 600 (300 # 1000) = 4
  /\ option_map (@length float) (fixed_tempo_beats (F:=float) 60 (Some (fof_int 100)) 30000)
     = Some 50%nat
  /\ spec.beat_count 100 30 = 51.
Proof. repeat split; vm_compute; reflexivity. Qed.

(** ** Click positions, in binary64 *)

(** C4 as stated fails.  The beat at 2.7 ms of a 3 ms canvas is at
    [int(2.7) = 2], inside the canvas, and the code overlays the click
    there; its rounded position [round(2.7) = 3] is outside and the
    specification's loop skips it.  A beat at infinity is not skipped: it
    raises. *)
Lemma clicks_are_not_at_rounded_positions :
  let click := mkSeg [1000] 2 1000 1 in
  let backing := mkSeg [0; 0; 0; 0; 0; 0] 2 1000 2 in
  let t : float := fdiv (fof_int 27) (fof_int 10000) in
  overlay_clicks (F:=float) no_resampling click 3 [t] backing
  = Ok (mkSeg [0; 0; 0; 0; 1000; 1000] 2 1000 2)
  /\ spec.overlay_clicks (F:=float) no_resampling click 3 [t] backing = Ok backing
  /\ overlay_clicks (F:=float) no_resampling click 3 [infinity] backing
     = Raise (OverflowError "cannot convert float infinity to integer").
Proof. repeat split; vm_compute; reflexivity. Qed.

(** C4, as amended, at a beat inside the canvas and one far beyond it. *)
Lemma clicks_at_truncated_positions_witness :
  let click := mkSeg [1000] 2 1000 1 in
  let backing := mkSeg [0; 0; 0; 0; 0; 0] 2 1000 2 in
  let t : float := fdiv (fof_int 27) (fof_int 10000) in
  overlay_clicks (F:=float) no_resampling click 3 [t; fof_int 5] backing
  = overlay_at (F:=float) no_resampling click (filter (in_canvas 3) [2; 5000]) backing.
Proof.
  apply (clicks_at_truncated_positions (F:=float)). vm_compute. reflexivity.
Defined.

(** ** Unusable tempo, in binary64 *)

(** C7 as stated fails: with [bpm] zero, negative or absent the beat grid
    builder returns the empty grid and raises nothing. *)
Lemma non_positive_bpm_is_not_rejected :
  let dir : directory (F:=float) := fun _ => None in
  beat_grid (F:=float) (fun _ => []) 0 dir true false (Some (fof_int 0)) 1000 []
  = Some (Ok [], [])
  /\ beat_grid (F:=float) (fun _ => []) 0 dir true false (Some (fof_int (-120))) 1000 []
     = Some (Ok [], [])
  /\ beat_grid (F:=float) (fun _ => []) 0 dir true false None 1000 [] = Some (Ok [], []).
Proof. repeat split; vm_compute; reflexivity. Qed.

(** C7, as amended, at [bpm = 0.0]. *)
Lemma unusable_bpm_gives_no_clicks_witness :
  beat_grid (F:=float) (fun _ => []) 0 stems_without_bass true false (Some (fof_int 0)) 1000 []
  = Some (Ok [], [])
  /\ make_backing (F:=float) no_resampling silent_stem no_fade (fun _ => []) 0
       stems_without_bass "stems" false (Some (fof_int 0)) true (Some (-120)%R) false
     = make_backing (F:=float) no_resampling silent_stem no_fade (fun _ => []) 0
         stems_without_bass "stems" false (Some (fof_int 0)) false (Some (-120)%R) false.
Proof.
  apply (unusable_bpm_gives_no_clicks (F:=float)). vm_compute. reflexivity.
Defined.

(** ** A missing stem *)

(** C5 at a directory without bass.wav. *)
Lemma missing_stem_fails_first_witness :
  exists n, In n required /\ stems_without_bass (F:=float) n = None /\
    make_backing (F:=float) no_resampling silent_stem no_fade (fun _ => []) 0
      stems_without_bass "stems" false (Some (fof_int 120)) true (Some (-120)%R) false
    = Some (Exit1 (FileNotFoundError (missing_file_message ++ path_of "stems" n)), []).
Proof.
  apply (missing_stem_fails_first (F:=float)).
  exists "bass.wav"%string. split; [simpl; tauto | reflexivity].
Defined.

(* ===================================================================== *)
(** * Levels and gains *)
(* ===================================================================== *)

(** ** Rounding toward minus infinity *)
Lemma Int_part_bounds (r : R) : (IZR (Int_part r) <= r < IZR (Int_part r) + 1)%R.
Proof.
  destruct (base_Int_part r) as [H1 H2]. split; lra.
Qed.

Lemma Int_part_unique (r : R) (z : Z) : (IZR z <= r < IZR z + 1)%R -> Int_part r = z.
Proof.
  intros [H1 H2]. symmetry. apply Int_part_spec. lra.
Qed.

Lemma Int_part_IZR (z : Z) : Int_part (IZR z) = z.
Proof. apply Int_part_unique. lra. Qed.

Lemma fbound_inside (r : R) (lo hi : Z) :
  (IZR lo + 1 <= r <= IZR hi)%R -> audioop.fbound r lo hi = Int_part r.
Proof.
  intros [H1 H2]. unfold audioop.fbound.
  destruct (Rlt_dec (IZR hi) r); [lra|].
  destruct (Rlt_dec r (IZR lo + 1)); [lra|]. reflexivity.
Qed.

(** ** Sample ranges *)
Lemma full_scale_pos (w : Z) : 1 <= w -> 128 <= 2 ^ (8 * w - 1).
Proof.
  intros Hw. change 128 with (2 ^ 7). apply Z.pow_le_mono_r; lia.
Qed.

Lemma max_possible_amplitude_eq (seg : AudioSegment) :
  1 <= sample_width seg ->
  max_possible_amplitude seg = 2 ^ (8 * sample_width seg - 1).
Proof.
  intros Hw. unfold max_possible_amplitude.
  replace (8 * sample_width seg) with (Z.succ (8 * sample_width seg - 1)) at 1 by lia.
  rewrite Z.pow_succ_r by lia.
  rewrite Z.mul_comm, Z.div_mul by lia. reflexivity.
Qed.

Lemma range_of_width (w : Z) :
  audioop.minval w = - 2 ^ (8 * w - 1) /\ audioop.maxval w = 2 ^ (8 * w - 1) - 1.
Proof. split; reflexivity. Qed.

(** ** The peak of a fragment *)
Lemma audioop_max_nonneg (l : list Z) : 0 <= audioop.max l.
Proof. induction l as [|s l IH]; simpl; lia. Qed.

Lemma audioop_max_ge (l : list Z) (s : Z) : In s l -> Z.abs s <= audioop.max l.
Proof.
  induction l as [|x l IH]; intros Hin; [destruct Hin|].
  destruct Hin as [-> | Hin]; simpl; [lia|]. specialize (IH Hin). lia.
Qed.

Lemma audioop_max_attained (l : list Z) :
  0 < audioop.max l -> exists s, In s l /\ Z.abs s = audioop.max l.
Proof.
  induction l as [|x l IH]; simpl; intros Hpos; [lia|].
  destruct (Z.max_spec (Z.abs x) (audioop.max l)) as [[Hlt ->] | [Hle ->]].
  - destruct IH as [s [Hin Hs]]; [lia|]. exists s. auto.
  - exists x. auto.
Qed.

(** ** The factor of -1 dB *)

Lemma kappa_pos : (0 < kappa)%R.
Proof. unfold kappa, Rpower. apply exp_pos. Qed.

Lemma kappa_pow20 : (kappa ^ 20 = / 10)%R.
Proof.
  unfold kappa. rewrite <- Rpower_pow by (unfold Rpower; apply exp_pos).
  rewrite Rpower_mult.
  replace (-1 / 20 * INR 20)%R with (- (1))%R by (simpl; field).
  rewrite Rpower_Ropp, Rpower_1; lra.
Qed.

Lemma kappa_below (a : R) : (0 <= a)%R -> (/ 10 < a ^ 20)%R -> (kappa < a)%R.
Proof.
  intros Ha Hlt. destruct (Rlt_dec kappa a) as [|Hn]; [assumption|exfalso].
  assert (Hle : (a <= kappa)%R) by lra.
  pose proof (pow_incr a kappa 20 (conj Ha Hle)) as Hp.
  rewrite kappa_pow20 in Hp. lra.
Qed.

Lemma kappa_above (a : R) : (0 <= a)%R -> (a ^ 20 < / 10)%R -> (a < kappa)%R.
Proof.
  intros Ha Hlt. destruct (Rlt_dec a kappa) as [|Hn]; [assumption|exfalso].
  assert (Hle : (kappa <= a)%R) by lra.
  pose proof (pow_incr kappa a 20 (conj (Rlt_le _ _ kappa_pos) Hle)) as Hp.
  rewrite kappa_pow20 in Hp. lra.
Qed.

Lemma pow20_ratio (p q : Z) :
  0 < q -> ((IZR p / IZR q) ^ 20 = IZR (p ^ 20) / IZR (q ^ 20))%R.
Proof.
  intros Hq. unfold Rdiv. rewrite Rpow_mult_distr, pow_inv.
  rewrite !pow_IZR. reflexivity.
Qed.

Lemma kappa_lt_ratio (p q : Z) :
  0 <= p -> 0 < q -> q ^ 20 < 10 * p ^ 20 -> (kappa < IZR p / IZR q)%R.
Proof.
  intros Hp Hq Hlt.
  assert (HqR : (0 < IZR q)%R) by (apply IZR_lt; assumption).
  assert (Hq20 : (0 < IZR (q ^ 20))%R) by (apply IZR_lt; apply Z.pow_pos_nonneg; lia).
  apply kappa_below.
  - apply Rmult_le_pos; [apply IZR_le; assumption | left; apply Rinv_0_lt_compat; assumption].
  - rewrite pow20_ratio by assumption.
    apply IZR_lt in Hlt. rewrite mult_IZR in Hlt.
    apply Rmult_lt_reg_r with (IZR (q ^ 20)); [assumption|].
    unfold Rdiv. rewrite Rmult_assoc, Rinv_l by lra. lra.
Qed.

Lemma ratio_lt_kappa (p q : Z) :
  0 <= p -> 0 < q -> 10 * p ^ 20 < q ^ 20 -> (IZR p / IZR q < kappa)%R.
Proof.
  intros Hp Hq Hlt.
  assert (HqR : (0 < IZR q)%R) by (apply IZR_lt; assumption).
  assert (Hq20 : (0 < IZR (q ^ 20))%R) by (apply IZR_lt; apply Z.pow_pos_nonneg; lia).
  apply kappa_above.
  - apply Rmult_le_pos; [apply IZR_le; assumption | left; apply Rinv_0_lt_compat; assumption].
  - rewrite pow20_ratio by assumption.
    apply IZR_lt in Hlt. rewrite mult_IZR in Hlt.
    apply Rmult_lt_reg_r with (IZR (q ^ 20)); [assumption|].
    unfold Rdiv. rewrite Rmult_assoc, Rinv_l by lra. lra.
Qed.

Lemma kappa_lt_127_128 : (kappa < 127 / 128)%R.
Proof. apply (kappa_lt_ratio 127 128); [lia | lia | vm_compute; reflexivity]. Qed.

Lemma kappa_window : (58409 / 65536 < kappa < 29205 / 32768)%R.
Proof.
  split.
  - apply (ratio_lt_kappa 58409 65536); [lia | lia | vm_compute; reflexivity].
  - apply (kappa_lt_ratio 29205 32768); [lia | lia | vm_compute; reflexivity].
Qed.

Lemma db_to_float_0 : db_to_float 0 = 1%R.
Proof.
  unfold db_to_float. replace (0 / 20)%R with 0%R by field.
  apply Rpower_O. lra.
Qed.

Lemma ln_10_pos : (0 < ln 10)%R.
Proof. rewrite <- ln_1. apply ln_increasing; lra. Qed.

Lemma max_dBFS_of_peak (seg : AudioSegment) :
  1 <= sample_width seg ->
  max_dBFS seg =
    if Z.eq_dec (peak seg) 0 then NegInf
    else dB (20 * (ln (IZR (peak seg) / IZR (max_possible_amplitude seg)) / ln 10))%R.
Proof.
  intros Hw. unfold max_dBFS, ratio_to_db. fold (peak seg).
  pose proof (full_scale_pos _ Hw) as Hfull.
  rewrite <- (max_possible_amplitude_eq seg Hw) in Hfull.
  assert (HfR : (0 < IZR (max_possible_amplitude seg))%R) by (apply IZR_lt; lia).
  destruct (Z.eq_dec (peak seg) 0) as [E | E].
  - rewrite E. destruct (Req_dec_T _ _) as [|Hn]; [reflexivity|].
    exfalso. apply Hn. unfold Rdiv. apply Rmult_0_l.
  - destruct (Req_dec_T _ _) as [Hz|]; [|reflexivity].
    exfalso. apply E. apply eq_IZR.
    apply (Rmult_eq_reg_r (/ IZR (max_possible_amplitude seg))).
    + rewrite Rmult_0_l. exact Hz.
    + apply Rinv_neq_0_compat. lra.
Qed.

(** The linear factor of the normalization gain: [kappa * full / peak]. *)
Lemma normalize_factor (seg : AudioSegment) :
  1 <= sample_width seg -> 0 < peak seg ->
  db_to_float (normalize_gain seg)
  = (kappa * IZR (max_possible_amplitude seg) / IZR (peak seg))%R.
Proof.
  intros Hw Hp. unfold normalize_gain. rewrite (max_dBFS_of_peak seg Hw).
  destruct (Z.eq_dec (peak seg) 0) as [E|_]; [lia|].
  pose proof (full_scale_pos _ Hw) as Hfull.
  rewrite <- (max_possible_amplitude_eq seg Hw) in Hfull.
  set (full := IZR (max_possible_amplitude seg)).
  set (p := IZR (peak seg)).
  assert (Hf : (0 < full)%R) by (apply IZR_lt; lia).
  assert (HpR : (0 < p)%R) by (apply IZR_lt; lia).
  assert (Hr : (0 < p / full)%R) by (apply Rdiv_lt_0_compat; assumption).
  pose proof ln_10_pos as Hln.
  unfold db_to_float.
  replace ((-1 - 20 * (ln (p / full) / ln 10)) / 20)%R
    with (-1 / 20 + - (ln (p / full) / ln 10))%R by (field; lra).
  rewrite Rpower_plus. fold kappa.
  unfold Rpower at 1.
  replace (- (ln (p / full) / ln 10) * ln 10)%R with (- ln (p / full))%R by (field; lra).
  rewrite exp_Ropp, exp_ln by assumption.
  field. split; lra.
Qed.

Lemma fbound_IZR (w s : Z) :
  1 <= w -> in_range w s ->
  audioop.fbound (IZR s) (audioop.minval w) (audioop.maxval w) = s.
Proof.
  intros Hw [Hlo Hhi]. unfold audioop.fbound.
  destruct (Rlt_dec _ _) as [H|_]; [apply lt_IZR in H; lia|].
  destruct (Rlt_dec _ _) as [H|H].
  - rewrite <- plus_IZR in H. apply lt_IZR in H. lia.
  - apply Int_part_IZR.
Qed.

Lemma apply_gain_0 (seg : AudioSegment) : well_formed seg -> apply_gain seg 0 = seg.
Proof.
  intros [Hw Hr]. destruct seg as [smp w r c]. simpl in *.
  unfold apply_gain, _spawn, audioop.mul. simpl. rewrite db_to_float_0. f_equal.
  transitivity (map (fun s : Z => s) smp); [|apply map_id].
  apply map_ext_in. intros s Hs. rewrite Rmult_1_r.
  apply fbound_IZR; [assumption|]. rewrite Forall_forall in Hr. auto.
Qed.

(** Scaling a buffer of peak [p] by [f], with [f * p = K] within the range
    of the width, leaves a peak less than one step away from [K]. *)
Lemma peak_apply_gain_bounds (seg : AudioSegment) (K f : R) :
  1 <= sample_width seg ->
  (0 < f)%R -> (f * IZR (peak seg) = K)%R ->
  (K <= IZR (audioop.maxval (sample_width seg)))%R ->
  0 < peak seg ->
  let out := _spawn seg (audioop.mul (sample_width seg) (samples seg) f) in
  (K - 1 < IZR (peak out) < K + 1)%R.
Proof.
  intros Hw Hf HK Hhi Hp out.
  assert (Hlo : (IZR (audioop.minval (sample_width seg)) + 1 <= - K)%R).
  { destruct (range_of_width (sample_width seg)) as [-> Hmx]. rewrite Hmx in Hhi.
    rewrite minus_IZR in Hhi. rewrite opp_IZR. lra. }
  assert (HK0 : (0 < K)%R).
  { rewrite <- HK. apply Rmult_lt_0_compat; [assumption | apply IZR_lt; assumption]. }
  assert (Hone : forall s, In s (samples seg) ->
     let o := audioop.fbound (IZR s * f) (audioop.minval (sample_width seg))
                (audioop.maxval (sample_width seg)) in
     (IZR s * f - 1 < IZR o <= IZR s * f)%R /\ (- K <= IZR s * f <= K)%R).
  { intros s Hs o.
    assert (Habs : (- IZR (peak seg) <= IZR s <= IZR (peak seg))%R).
    { pose proof (audioop_max_ge _ _ Hs) as Hle. fold (peak seg) in Hle.
      split; [rewrite <- opp_IZR|]; apply IZR_le; lia. }
    assert (Hsf : (- K <= IZR s * f <= K)%R).
    { rewrite <- HK. split; nra. }
    split; [|assumption]. unfold o. rewrite fbound_inside by lra.
    pose proof (Int_part_bounds (IZR s * f)). lra. }
  unfold out, peak. simpl samples. unfold audioop.mul. split.
  - destruct (audioop_max_attained (samples seg) Hp) as [s [Hs Habs]].
    fold (peak seg) in Habs.
    destruct (Hone s Hs) as [[Ho1 Ho2] _].
    set (o := audioop.fbound (IZR s * f) _ _) in *.
    assert (Hin : In o (map (fun s => audioop.fbound (IZR s * f)
               (audioop.minval (sample_width seg)) (audioop.maxval (sample_width seg)))
               (samples seg))) by (apply in_map_iff; exists s; auto).
    pose proof (audioop_max_ge _ _ Hin) as Hge. apply IZR_le in Hge.
    rewrite abs_IZR in Hge.
    assert (Hs' : (IZR s = IZR (peak seg) \/ IZR s = - IZR (peak seg))%R).
    { destruct (Z.abs_spec s) as [[_ E] | [_ E]]; rewrite E in Habs.
      - left. now rewrite Habs.
      - right. rewrite <- opp_IZR. f_equal. lia. }
    destruct Hs' as [E | E]; rewrite E in Ho1, Ho2.
    + assert (Ho : (K - 1 < IZR o)%R) by nra.
      apply Rlt_le_trans with (IZR o); [assumption|].
      apply Rle_trans with (Rabs (IZR o)); [apply Rle_abs | assumption].
    + assert (Ho : (IZR o <= - K)%R) by nra.
      apply Rlt_le_trans with (- IZR o)%R; [lra|].
      apply Rle_trans with (Rabs (IZR o)); [|assumption].
      rewrite <- Rabs_Ropp. apply Rle_abs.
  - set (l := map _ _).
    destruct (Z.eq_dec (audioop.max l) 0) as [E0 | En].
    + rewrite E0. lra.
    + pose proof (audioop_max_nonneg l).
      destruct (audioop_max_attained l) as [o [Hin Habs]]; [lia|].
      rewrite <- Habs. unfold l in Hin. apply in_map_iff in Hin.
      destruct Hin as [s [<- Hs]].
      destruct (Hone s Hs) as [[Ho1 Ho2] [Hs1 Hs2]].
      rewrite abs_IZR. apply Rabs_def1; lra.
Qed.

(* ===================================================================== *)
(** * Overlaying *)
(* ===================================================================== *)

(** ** Slices *)

Lemma slice_none {A : Type} (xs : list A) : slice xs 0 0 = [].
Proof.
  unfold slice, slice_index. simpl (0 <? 0).
  rewrite Z.min_l by lia. reflexivity.
Qed.


Lemma slice_suffix {A : Type} (xs : list A) (k : Z) :
  0 <= k <= Z.of_nat (length xs) ->
  slice xs k (Z.of_nat (length xs)) = skipn (Z.to_nat k) xs.
Proof.
  intros Hk. unfold slice, slice_index.
  destruct (Z.ltb_spec k 0); [lia|].
  destruct (Z.ltb_spec (Z.of_nat (length xs)) 0); [lia|].
  rewrite Z.min_id, (Z.min_l k) by lia.
  apply firstn_all2. rewrite length_skipn. lia.
Qed.

Lemma slice_all {A : Type} (xs : list A) : slice xs 0 (Z.of_nat (length xs)) = xs.
Proof. rewrite slice_suffix by lia. reflexivity. Qed.

(** ** Sample widths *)

Lemma shiftl_scale (x k : Z) : 0 <= k -> Z.shiftl x k = x * 2 ^ k.
Proof. intros Hk. apply Z.shiftl_mul_pow2. assumption. Qed.

Lemma at_width_same (seg : AudioSegment) : at_width (sample_width seg) seg = samples seg.
Proof.
  unfold at_width, audioop.lin2lin. rewrite Z.sub_diag, Z.mul_0_r.
  rewrite <- (map_id (samples seg)) at 2. apply map_ext. intros s. apply Z.shiftl_0_r.
Qed.

Lemma at_width_length (W : Z) (seg : AudioSegment) :
  length (at_width W seg) = length (samples seg).
Proof. unfold at_width, audioop.lin2lin. apply length_map. Qed.




Lemma set_sample_width_samples (W : Z) (seg : AudioSegment) :
  samples (set_sample_width W seg) = at_width W seg.
Proof.
  unfold set_sample_width. destruct (Z.eqb_spec W (sample_width seg)) as [-> | _].
  - symmetry. apply at_width_same.
  - reflexivity.
Qed.

Lemma set_sample_width_width (W : Z) (seg : AudioSegment) :
  sample_width (set_sample_width W seg) = W.
Proof.
  unfold set_sample_width. destruct (Z.eqb_spec W (sample_width seg)) as [-> | _]; reflexivity.
Qed.

Lemma set_sample_width_rate (W : Z) (seg : AudioSegment) :
  frame_rate (set_sample_width W seg) = frame_rate seg.
Proof. unfold set_sample_width. destruct (W =? sample_width seg); reflexivity. Qed.

Lemma set_sample_width_channels (W : Z) (seg : AudioSegment) :
  channels (set_sample_width W seg) = channels seg.
Proof. unfold set_sample_width. destruct (W =? sample_width seg); reflexivity. Qed.

Lemma scaled_in_range (w W x : Z) :
  1 <= w -> w <= W -> in_range w x -> in_range W (x * 2 ^ (8 * (W - w))).
Proof.
  intros Hw HW [Hlo Hhi]. unfold in_range, audioop.minval, audioop.maxval in *.
  assert (E : 2 ^ (8 * W - 1) = 2 ^ (8 * w - 1) * 2 ^ (8 * (W - w))).
  { rewrite <- Z.pow_add_r by lia. f_equal. lia. }
  assert (Hk : 0 < 2 ^ (8 * (W - w))) by (apply Z.pow_pos_nonneg; lia).
  rewrite E. nia.
Qed.

(** ** Sums with and without saturation *)

Lemma mixed_nil_r w a : mixed w a [] = a.
Proof. unfold mixed. simpl. reflexivity. Qed.

Lemma mixed_nil_l w b : mixed w [] b = [].
Proof. unfold mixed. rewrite Nat.min_0_r. reflexivity. Qed.

Lemma mixed_cons w x a y b :
  mixed w (x :: a) (y :: b) = audioop.clip w (x + y) :: mixed w a b.
Proof. reflexivity. Qed.

Lemma mixed_length w a b : length (mixed w a b) = length a.
Proof.
  revert b. induction a as [|x a IH]; intros [|y b];
    rewrite ?mixed_nil_l, ?mixed_nil_r, ?mixed_cons; simpl; auto.
Qed.


Lemma clip_near w x e : in_range w x -> Z.abs (audioop.clip w (x + e) - x) <= Z.abs e.
Proof.
  intros [Hlo Hhi]. unfold audioop.clip.
  destruct (Z.ltb_spec (audioop.maxval w) (x + e)); [lia|].
  destruct (Z.ltb_spec (x + e) (audioop.minval w)); lia.
Qed.

(** Overlaying small samples moves the samples of the base by as little. *)
Lemma mixed_near w a b B :
  0 <= B -> Forall (in_range w) a -> Forall (fun e => Z.abs e <= B) b ->
  forall i, Z.abs (nth i (mixed w a b) 0 - nth i a 0) <= B.
Proof.
  intros HB. revert b. induction a as [|x a IH]; intros [|y b] Ha Hb i;
    rewrite ?mixed_nil_l, ?mixed_nil_r, ?mixed_cons.
  - destruct i; simpl; lia.
  - destruct i; simpl; lia.
  - rewrite Z.sub_diag. simpl. lia.
  - inversion Ha; subst. inversion Hb; subst. destruct i as [|i]; simpl.
    + pose proof (clip_near w x y H1). lia.
    + apply IH; assumption.
Qed.












(** ** Extents *)

Lemma same_shape_refl a : same_shape a a.
Proof. repeat split. Qed.

Lemma set_sample_width_shape w seg : same_shape (set_sample_width w seg) seg.
Proof.
  unfold set_sample_width. destruct (w =? sample_width seg); [apply same_shape_refl|].
  unfold same_shape, audioop.lin2lin. simpl. rewrite length_map. auto.
Qed.

(** ** Cutting a segment of whole milliseconds *)

Section Whole.
Context {F : Type} `{PyFloat F}.
Variable ratecv : list Z -> Z -> Z -> Z -> Z -> list Z.

Lemma spawn_samples (seg : AudioSegment) : _spawn seg (samples seg) = seg.
Proof. destruct seg. reflexivity. Qed.

Lemma len_shape (a b : AudioSegment) :
  same_shape a b -> __len__ (F:=F) a = __len__ (F:=F) b.
Proof.
  intros (Hl & Hr & Hc). unfold __len__, frame_count. now rewrite Hl, Hr, Hc.
Qed.

Lemma parse_position_shape (a b : AudioSegment) (val : Z) :
  same_shape a b -> _parse_position (F:=F) a val = _parse_position (F:=F) b val.
Proof.
  intros Hs. unfold _parse_position, frame_count_ms.
  rewrite (len_shape a b Hs). destruct Hs as (_ & -> & _). reflexivity.
Qed.

Lemma whole_ms_shape (a b : AudioSegment) :
  same_shape a b -> whole_ms (F:=F) b -> whole_ms (F:=F) a.
Proof.
  intros Hs (l & Hlen & Hl & Hp0 & Hpl & Hfull). exists l.
  rewrite (len_shape a b Hs), !(parse_position_shape a b _ Hs).
  destruct Hs as (Hn & Hr & Hc). unfold frame_count in *. rewrite Hn, Hc. auto.
Qed.

Lemma getitem_head_whole (seg : AudioSegment) :
  whole_ms (F:=F) seg -> channels seg * sample_width seg <> 0 ->
  __getitem__ (F:=F) seg None (Some 0) = Ok (_spawn seg []).
Proof.
  intros (l & Hlen & Hl & Hp0 & _ & _) Hfw. unfold __getitem__.
  rewrite Hlen. cbn [bind]. rewrite Z.min_l by lia. rewrite Hp0. cbn [bind].
  rewrite Z.mul_0_l, slice_none. cbn [length].
  destruct (Z.eqb_spec (channels seg * sample_width seg) 0); [contradiction|].
  reflexivity.
Qed.

Lemma getitem_tail_whole (seg : AudioSegment) :
  whole_ms (F:=F) seg -> channels seg * sample_width seg <> 0 ->
  __getitem__ (F:=F) seg (Some 0) None = Ok seg.
Proof.
  intros (l & Hlen & Hl & Hp0 & Hpl & Hfull) Hfw. unfold __getitem__.
  rewrite Hlen. cbn [bind]. rewrite Z.min_l by lia. rewrite Z.min_id.
  rewrite Hp0. cbn [bind]. rewrite Hpl. cbn [bind].
  rewrite Z.mul_0_l, <- Hfull, slice_all.
  destruct (Z.eqb_spec (channels seg * sample_width seg) 0); [contradiction|].
  rewrite Z.sub_0_r, Z.sub_diag. rewrite Z.div_0_l by nia.
  cbn [Z.eqb]. now rewrite spawn_samples.
Qed.

(** On a base of whole milliseconds, [overlay] at 0 adds the samples of the
    other segment onto those of the base, with saturation. *)
Lemma overlay_whole (a b a' b' : AudioSegment) :
  _sync ratecv a b = Ok (a', b') ->
  whole_ms (F:=F) a' -> channels a' * sample_width a' <> 0 ->
  overlay (F:=F) ratecv a b 0
  = Ok (_spawn a' (mixed (sample_width a') (samples a') (samples b'))).
Proof.
  intros Hsync Hw Hfw. unfold overlay. rewrite Hsync. cbn [bind fst snd].
  rewrite (getitem_head_whole a' Hw Hfw), (getitem_tail_whole a' Hw Hfw).
  cbn [bind]. unfold _spawn at 2. cbn [samples app]. do 2 f_equal.
  unfold mixed.
  destruct (Nat.leb_spec (length (samples a')) (length (samples b'))) as [Hle | Hgt].
  - rewrite length_firstn, !Nat.min_l by lia.
    rewrite (Nat.min_r (length (samples b'))) by lia. reflexivity.
  - rewrite (Nat.min_l (length (samples b'))) by lia.
    rewrite (firstn_all (samples b')). reflexivity.
Qed.



Lemma sync_shared (a b : AudioSegment) :
  shares_layout a b ->
  _sync ratecv a b
  = Ok (set_sample_width (Z.max (sample_width a) (sample_width b)) a,
        set_sample_width (Z.max (sample_width a) (sample_width b)) b).
Proof.
  intros [Hc Hr]. unfold _sync. rewrite Hc, Hr, !Z.max_id.
  unfold set_channels. rewrite Hc, Z.eqb_refl. cbn [bind].
  unfold set_frame_rate. rewrite Hr, Z.eqb_refl. reflexivity.
Qed.

(** [overlay] at 0 of a segment with the layout of the base, on a base of
    whole milliseconds: both are taken at the larger of the two widths. *)
Lemma overlay_shared (a b : AudioSegment) :
  shares_layout a b -> whole_ms (F:=F) a -> 0 < channels a -> 1 <= sample_width a ->
  overlay (F:=F) ratecv a b 0
  = Ok (mkSeg (mixed (Z.max (sample_width a) (sample_width b))
                 (at_width (Z.max (sample_width a) (sample_width b)) a)
                 (at_width (Z.max (sample_width a) (sample_width b)) b))
              (Z.max (sample_width a) (sample_width b)) (frame_rate a) (channels a)).
Proof.
  intros Hs Hw Hc Hsw. set (W := Z.max (sample_width a) (sample_width b)).
  rewrite (overlay_whole a b _ _ (sync_shared a b Hs)).
  - unfold _spawn.
    rewrite !set_sample_width_samples, set_sample_width_width,
      set_sample_width_rate, set_sample_width_channels. reflexivity.
  - apply (whole_ms_shape _ a); [|exact Hw]. apply set_sample_width_shape.
  - rewrite set_sample_width_width, set_sample_width_channels.
    fold W. assert (1 <= W) by (unfold W; lia). nia.
Qed.

(** ** The order of the stems *)







End Whole.

(** A segment is of whole milliseconds in binary64: by computation. *)
Ltac whole_ms_by_computation l :=
  exists l; repeat split; try (vm_compute; reflexivity); try lia.


(* ===================================================================== *)
(** * Durations *)
(* ===================================================================== *)













(** ** Rounding to the nearest integer *)

Lemma round_half_even_near (n : Z) (d : positive) :
  2 * Z.abs (round_half_even n d * Zpos d - n) <= Zpos d.
Proof.
  unfold round_half_even.
  pose proof (Z.div_mod n (Zpos d) ltac:(lia)) as Hdm.
  pose proof (Z.mod_pos_bound n (Zpos d) ltac:(lia)) as Hmod.
  set (fl := n / Zpos d) in *. set (r := n mod Zpos d) in *.
  destruct (Z.compare_spec (2 * (n - fl * Zpos d)) (Zpos d)) as [E | E | E].
  - destruct (Z.even fl); lia.
  - lia.
  - lia.
Qed.

Lemma round_half_even_nonneg (n : Z) (d : positive) : 0 <= n -> 0 <= round_half_even n d.
Proof.
  intros Hn. unfold round_half_even.
  assert (0 <= n / Zpos d) by (apply Z.div_pos; lia).
  destruct (_ ?= _); [destruct (Z.even _)| |]; lia.
Qed.

Lemma tostereo_repeat (x : Z) (n : nat) :
  audioop.tostereo (repeat x n) = repeat x (2 * n).
Proof.
  induction n as [|n IH]; [reflexivity|].
  replace (2 * S n)%nat with (S (S (2 * n))) by lia.
  cbn [repeat audioop.tostereo flat_map app]. f_equal. f_equal. exact IH.
Qed.



(** ** What the code computes, in any arithmetic *)

Section Lengths.
Context {F : Type} `{PyFloat F}.



(** The canvas is stereo silence of [int(frame_rate * (max_len / 1000.0))]
    frames, 16 bit, at the frame rate asked for. *)
Lemma canvas_spec (max_len rate : Z) (base : AudioSegment) :
  canvas (F:=F) max_len rate = Ok base ->
  exists frames,
    int_of (fmul (fof_int rate) (fdiv (fof_int max_len) (fof_int 1000))) = Ok frames
    /\ base = mkSeg (repeat 0 (2 * Z.to_nat frames)) 2 rate 2.
Proof.
  unfold canvas, silent.
  destruct (int_of _) as [frames|]; cbn [bind]; [|discriminate].
  unfold set_channels. cbn [channels samples sample_width frame_rate Z.eqb andb].
  rewrite tostereo_repeat. intros [= <-]. exists frames. auto.
Qed.


End Lengths.

(** ** Cutting, in exact arithmetic *)






Section Canvas.
Variables max_len rate : Z.
Hypothesis Hlen : 0 <= max_len.
Hypothesis Hrate : 2000 <= rate.





Section Overlays.
Variable ratecv : list Z -> Z -> Z -> Z -> Z -> list Z.




End Overlays.

End Canvas.

(** ** The order of the stems, on the canvas *)



(* ===================================================================== *)
(** * Channels: the loader, the canvas and the click *)
(* ===================================================================== *)

Lemma set_channels_channels n seg seg' :
  set_channels n seg = Ok seg' -> channels seg' = n.
Proof.
  unfold set_channels.
  destruct (n =? channels seg) eqn:E.
  - intros [= <-]. symmetry. now apply Z.eqb_eq.
  - repeat match goal with
           | |- context [if ?b then _ else _] => destruct b
           end; try discriminate; intros [= <-]; reflexivity.
Qed.


Lemma set_frame_rate_channels ratecv rate seg :
  channels (set_frame_rate ratecv rate seg) = channels seg.
Proof.
  unfold set_frame_rate. destruct (rate =? frame_rate seg); [reflexivity|].
  destruct (samples seg); reflexivity.
Qed.

Section Loading.
Context {F : Type} `{PyFloat F}.
Variable ratecv : list Z -> Z -> Z -> Z -> Z -> list Z.
Variable white_noise : AudioSegment.
Variable fade_out : Z -> AudioSegment -> AudioSegment.

Lemma load_seg_spec (dir : directory (F:=F)) stems_dir name tr src :
  dir name = Some (Audio src) ->
  _load_seg dir stems_dir name tr
  = Some (if channels src =? 2 then Ok src
          else if channels src =? 1
               then Ok (mkSeg (flat_map (fun s => [s; s]) (samples src))
                              (sample_width src) (frame_rate src) 2)
               else Raise (ValueError "AudioSegment.set_channels only supports mono-to-multi channel and multi-to-mono channel conversion"),
          tr ++ [Loaded name]).
Proof.
  intros Hsrc. unfold _load_seg, and_then, emit, lift. rewrite Hsrc.
  unfold set_channels. rewrite (Z.eqb_sym 2 (channels src)).
  destruct (channels src =? 2); [reflexivity|].
  destruct (channels src =? 1); reflexivity.
Qed.

(** C10, as amended.  [_load_seg] returns a decoded stereo file as it is
    and a mono file with every sample copied to both channels, at the
    sample width and the frame rate of the file; a file with any other
    number of channels makes it raise ValueError, so that whatever it
    returns has 2 channels.  The canvas is stereo silence.  The click is not
    loaded: when fading keeps the channels it has those of the noise it is
    cut from, and it is [_sync], inside [overlay], that brings both of its
    arguments to the larger of their two channel counts. *)
Theorem loaded_buffers_are_stereo :
  (forall (dir : directory (F:=F)) stems_dir name tr src,
      dir name = Some (Audio src) ->
      _load_seg dir stems_dir name tr
      = Some (if channels src =? 2 then Ok src
              else if channels src =? 1
                   then Ok (mkSeg (flat_map (fun s => [s; s]) (samples src))
                                  (sample_width src) (frame_rate src) 2)
                   else Raise (ValueError "AudioSegment.set_channels only supports mono-to-multi channel and multi-to-mono channel conversion"),
              tr ++ [Loaded name]))
  /\ (forall (dir : directory (F:=F)) stems_dir name tr seg tr',
      _load_seg dir stems_dir name tr = Some (Ok seg, tr') ->
      channels seg = 2
      /\ tr' = tr ++ [Loaded name]
      /\ exists src,
           dir name = Some (Audio src)
           /\ (channels src = 1 \/ channels src = 2)
           /\ sample_width seg = sample_width src
           /\ frame_rate seg = frame_rate src
           /\ samples seg = if channels src =? 1
                            then flat_map (fun s => [s; s]) (samples src)
                            else samples src)
  /\ (forall max_len rate base,
      canvas (F:=F) max_len rate = Ok base ->
      exists frames,
        int_of (fmul (fof_int rate) (fdiv (fof_int max_len) (fof_int 1000))) = Ok frames
        /\ base = mkSeg (repeat 0 (2 * Z.to_nat frames)) 2 rate 2)
  /\ ((forall n s, channels (fade_out n s) = channels s) ->
      forall rate level,
        channels (_make_click_sample ratecv white_noise fade_out rate level)
        = channels white_noise)
  /\ (forall a b a' b',
      _sync ratecv a b = Ok (a', b') ->
      channels a' = Z.max (channels a) (channels b)
      /\ channels b' = Z.max (channels a) (channels b)).
Proof.
  split; [|split; [|split; [|split]]].
  - apply load_seg_spec.
  - intros dir stems_dir name tr seg tr' Hload.
    destruct (dir name) as [[src | b] | ] eqn:Hsrc;
      try (unfold _load_seg, and_then, emit, lift, raise in Hload;
           rewrite Hsrc in Hload; discriminate).
    rewrite (load_seg_spec dir stems_dir name tr src Hsrc) in Hload.
    destruct (channels src =? 2) eqn:E2.
    + apply Z.eqb_eq in E2. injection Hload as <- <-.
      repeat split; auto. exists src. rewrite E2. repeat split; auto.
    + destruct (channels src =? 1) eqn:E1; [|discriminate].
      injection Hload as <- <-.
      repeat split; auto. exists src. cbn [samples sample_width frame_rate].
      rewrite E1. apply Z.eqb_eq in E1. repeat split; auto.
  - apply canvas_spec.
  - intros Hfade rate level. unfold _make_click_sample, sub_gain.
    destruct (Rlt_dec level 0); cbn [apply_gain _spawn channels];
      rewrite Hfade; apply set_frame_rate_channels.
  - intros a b a' b'. unfold _sync.
    destruct (set_channels _ a) as [sa|] eqn:Ha; cbn [bind]; [|discriminate].
    destruct (set_channels _ b) as [sb|] eqn:Hb; cbn [bind]; [|discriminate].
    intros [= <- <-].
    rewrite !set_sample_width_channels, !set_frame_rate_channels.
    split; eapply set_channels_channels; eauto.
Qed.

End Loading.

(** C10 at a mono file, a stereo file, a canvas of 1 ms and a mono burst
    of noise. *)
Lemma loaded_buffers_are_stereo_witness :
  let mono := mkSeg [5; 7] 2 44100 1 in
  let noise := mkSeg [1000; -1000] 2 44100 1 in
  _load_seg (F:=float) (fun _ => Some (Audio mono)) "stems" "vocals.wav" []
  = Some (Ok (mkSeg [5; 5; 7; 7] 2 44100 2), [Loaded "vocals.wav"])
  /\ _load_seg (F:=float) (fun _ => Some (Audio silent_stem)) "stems" "bass.wav"
       [Loaded "vocals.wav"]
     = Some (Ok silent_stem, [Loaded "vocals.wav"; Loaded "bass.wav"])
  /\ channels (_make_click_sample no_resampling noise no_fade 48000 (-6)) = 1.
Proof.
  intros mono noise.
  pose proof (loaded_buffers_are_stereo (F:=float) no_resampling noise no_fade)
    as [Hload [_ [_ [Hclick _]]]].
  split; [|split].
  - exact (Hload (fun _ => Some (Audio mono)) "stems"%string "vocals.wav"%string []
             mono eq_refl).
  - exact (Hload (fun _ => Some (Audio silent_stem)) "stems"%string "bass.wav"%string
             [Loaded "vocals.wav"] silent_stem eq_refl).
  - exact (Hclick (fun _ _ => eq_refl) 48000 (-6)%R).
Defined.

(** C10 as stated fails twice.  A decoded file of six channels is not
    converted: [_load_seg] raises on it and [make_backing] ends with exit
    code 1 after that one file.  And the click, which is overlaid on the
    backing, is never loaded: cut from a mono burst of noise it reaches
    [overlay] with one channel, and it is [_sync] that copies it to both
    channels of the stereo backing. *)
Lemma loader_does_not_convert_every_buffer :
  let surround := mkSeg [1; 2; 3; 4; 5; 6] 2 44100 6 in
  let dir : directory (F:=float) :=
    fun n => if String.eqb n "vocals.wav" then Some (Audio surround)
             else Some (Audio silent_stem) in
  let noise := mkSeg [1000; -1000] 2 44100 1 in
  let click := _make_click_sample no_resampling noise no_fade 1000 (-6) in
  make_backing (F:=float) no_resampling noise no_fade (fun _ => []) 0 dir "stems"
    false None false None false
  = Some (Exit1 (ValueError "AudioSegment.set_channels only supports mono-to-multi channel and multi-to-mono channel conversion"),
          [Loaded "vocals.wav"])
  /\ channels click = 1
  /\ click_stage (F:=float) no_resampling noise no_fade 1000 2 [fof_int 0] silent_stem
     = overlay (F:=float) no_resampling silent_stem click 0
  /\ _sync no_resampling silent_stem click
     = Ok (silent_stem, mkSeg (audioop.tostereo (samples click)) 2 1000 2).
Proof.
  intros surround dir noise click.
  assert (Hclick : click = mkSeg (samples click) 2 1000 1).
  { unfold click, _make_click_sample, sub_gain.
    destruct (Rlt_dec (-6) 0); reflexivity. }
  split; [reflexivity|]. split; [rewrite Hclick; reflexivity|]. split.
  - unfold click_stage, overlay_clicks. fold click.
    assert (Hp : click_position (F:=float) (fof_int 0) = Ok 0) by (vm_compute; reflexivity).
    rewrite Hp. cbn [bind]. change (in_canvas 2 0) with true. cbv iota.
    destruct (overlay no_resampling silent_stem click 0); reflexivity.
  - rewrite Hclick at 1. generalize (samples click). intros data. reflexivity.
Qed.

(* ===================================================================== *)
(** * The duration of the mixdown *)
(* ===================================================================== *)


Section Duration.
Variable ratecv : list Z -> Z -> Z -> Z -> Z -> list Z.
Variable white_noise : AudioSegment.
Variable fade_out : Z -> AudioSegment -> AudioSegment.
Variable beat_track : AudioSegment -> list Q.






End Duration.

(** ** Sample runs *)





(* ===================================================================== *)
(** * Loudness normalization *)
(* ===================================================================== *)

Lemma minus_one_dBFS_fits (seg : AudioSegment) :
  1 <= sample_width seg ->
  (0 < minus_one_dBFS seg <= IZR (audioop.maxval (sample_width seg)))%R.
Proof.
  intros Hw. unfold minus_one_dBFS.
  rewrite (max_possible_amplitude_eq seg Hw).
  destruct (range_of_width (sample_width seg)) as [_ ->].
  pose proof (full_scale_pos _ Hw) as Hfull. apply IZR_le in Hfull.
  rewrite minus_IZR. set (full := IZR (2 ^ (8 * sample_width seg - 1))) in *.
  pose proof kappa_pos. pose proof kappa_lt_127_128. split; nra.
Qed.

Lemma max_dBFS_silent (seg : AudioSegment) :
  1 <= sample_width seg -> (max_dBFS seg = NegInf <-> peak seg = 0).
Proof.
  intros Hw. rewrite (max_dBFS_of_peak seg Hw).
  destruct (Z.eq_dec (peak seg) 0); split; intros; auto; try discriminate; lia.
Qed.

(** C2, as amended.  For a well-formed buffer that is not silent, the gain
    of line 267 added to the measured peak level is -1.0 dB, and the peak
    amplitude after [apply_gain] is less than one sample step away from the
    amplitude of -1.0 dBFS: the level is -1.0 dBFS up to the rounding of the
    samples to integers.  For a silent buffer the gain is zero and the
    output is the input. *)
Theorem normalized_peak (backing : AudioSegment) :
  well_formed backing ->
  (forall m, max_dBFS backing = dB m -> (m + normalize_gain backing = -1)%R)
  /\ (max_dBFS backing <> NegInf ->
     (Rabs (IZR (peak (normalize backing)) - minus_one_dBFS backing) < 1)%R)
  /\ (max_dBFS backing = NegInf ->
     normalize_gain backing = 0%R /\ normalize backing = backing).
Proof.
  intros [Hw Hr]. split; [|split].
  - intros m Hm. unfold normalize_gain. rewrite Hm. ring.
  - intros Hne.
    assert (Hp : 0 < peak backing).
    { pose proof (audioop_max_nonneg (samples backing)). fold (peak backing) in *.
      destruct (Z.eq_dec (peak backing) 0) as [E|]; [|lia].
      exfalso. apply Hne. apply max_dBFS_silent; assumption. }
    pose proof (full_scale_pos _ Hw) as Hfull.
    rewrite <- (max_possible_amplitude_eq backing Hw) in Hfull.
    assert (HpR : (0 < IZR (peak backing))%R) by (apply IZR_lt; assumption).
    assert (HfR : (0 < IZR (max_possible_amplitude backing))%R) by (apply IZR_lt; lia).
    destruct (minus_one_dBFS_fits backing Hw) as [HK0 HK1].
    unfold normalize, apply_gain. rewrite normalize_factor by assumption.
    assert (Hb := peak_apply_gain_bounds backing (minus_one_dBFS backing)
                    (kappa * IZR (max_possible_amplitude backing) / IZR (peak backing))%R Hw).
    simpl in Hb. fold (peak backing) in Hb.
    destruct Hb as [Hlo Hhi]; try assumption.
    + pose proof kappa_pos. apply Rdiv_lt_0_compat; [nra | assumption].
    + unfold minus_one_dBFS. field. lra.
    + apply Rabs_def1; lra.
  - intros Hs. unfold normalize, normalize_gain. rewrite Hs. split; [reflexivity|].
    apply apply_gain_0. split; assumption.
Qed.

Lemma sample_in_range_16 (s : Z) : -32768 <= s <= 32767 -> in_range 2 s.
Proof. intros H. exact H. Qed.

(** C2, as amended, at a 16-bit buffer of peak 1000. *)
Lemma normalized_peak_witness :
  let backing := mkSeg [1000; -200] 2 44100 2 in
  (forall m, max_dBFS backing = dB m -> (m + normalize_gain backing = -1)%R)
  /\ (max_dBFS backing <> NegInf ->
     (Rabs (IZR (peak (normalize backing)) - minus_one_dBFS backing) < 1)%R)
  /\ (max_dBFS backing = NegInf ->
     normalize_gain backing = 0%R /\ normalize backing = backing).
Proof.
  intros backing. apply (normalized_peak backing).
  split; [simpl; lia|]. simpl.
  repeat (apply Forall_cons; [apply sample_in_range_16; lia|]). apply Forall_nil.
Defined.

Lemma fbound_floor (r : R) (lo hi z : Z) :
  (IZR lo + 1 <= r <= IZR hi)%R -> (IZR z <= r < IZR z + 1)%R ->
  audioop.fbound r lo hi = z.
Proof.
  intros Hin Hz. rewrite fbound_inside by assumption. apply Int_part_unique. assumption.
Qed.

Lemma ln_10_lt_3 : (ln 10 < 3)%R.
Proof.
  rewrite <- (ln_exp 3). apply ln_increasing; [lra|].
  pose proof (exp_ineq1_le (1 / 2)) as He.
  set (e := exp (1 / 2)) in *.
  replace 3%R with (1 / 2 + 1 / 2 + (1 / 2 + 1 / 2) + (1 / 2 + 1 / 2))%R by field.
  rewrite !exp_plus. fold e.
  assert (H2 : (9 / 4 <= e * e)%R) by nra.
  assert (H4 : (81 / 16 <= e * e * (e * e))%R) by nra.
  nra.
Qed.

Lemma ln_kappa : (ln kappa = - (ln 10 / 20))%R.
Proof.
  unfold kappa, Rpower. rewrite ln_exp. field.
Qed.

(** A level whose amplitude ratio [r] lies below [10 ** (-1/20)] by the
    factor [58408 / 58409] or more is below -1.0001 dB. *)
Lemma level_below_minus_one (r : R) :
  (0 < r)%R -> (r <= 58408 / 58409 * kappa)%R ->
  (20 * (ln r / ln 10) < -1 - / 10000)%R.
Proof.
  intros Hr Hle. pose proof kappa_pos as Hk. pose proof ln_10_pos as Hl0.
  pose proof ln_10_lt_3 as Hl3.
  set (u := (ln kappa - ln r)%R).
  assert (Hexp : (exp (- u) = r / kappa)%R).
  { unfold u. replace (- (ln kappa - ln r))%R with (ln r + - ln kappa)%R by ring.
    rewrite exp_plus, exp_Ropp, !exp_ln by assumption. reflexivity. }
  pose proof (exp_ineq1_le (- u)) as Hin. rewrite Hexp in Hin.
  assert (Hrk : (r / kappa <= 58408 / 58409)%R).
  { apply Rmult_le_reg_r with kappa; [assumption|].
    unfold Rdiv at 1. rewrite Rmult_assoc, Rinv_l by lra. lra. }
  assert (Hu : (/ 58409 <= u)%R) by lra.
  assert (Hlr : (ln r = - (ln 10 / 20) - u)%R) by (unfold u; rewrite ln_kappa; ring).
  rewrite Hlr.
  replace (20 * ((- (ln 10 / 20) - u) / ln 10))%R with (-1 - 20 * u / ln 10)%R by (field; lra).
  assert (Hq : (/ 10000 < 20 * u / ln 10)%R).
  { apply Rmult_lt_reg_r with (ln 10); [assumption|].
    unfold Rdiv. rewrite Rmult_assoc, Rinv_l by lra. nra. }
  lra.
Qed.

(** C2 as stated fails on 16-bit samples: the buffer of peak 1000 is
    normalized to peak 29204, more than half a step below the amplitude of
    -1.0 dBFS (29204.51...), and its level is more than 0.0001 dB below
    -1.0 dBFS, far beyond the rounding of doubles. *)
Lemma normalized_peak_is_quantized :
  let backing := mkSeg [1000; -200] 2 44100 2 in
  normalize backing = mkSeg [29204; -5841] 2 44100 2
  /\ (exists level,
        max_dBFS (normalize backing) = dB level /\ (level < -1 - / 10000)%R)
  /\ (IZR (peak (normalize backing)) + / 2 < minus_one_dBFS backing)%R.
Proof.
  intros backing.
  destruct kappa_window as [Klo Khi].
  assert (Hn : normalize backing = mkSeg [29204; -5841] 2 44100 2).
  { unfold normalize, apply_gain.
    rewrite normalize_factor by (vm_compute; (reflexivity || discriminate)).
    change (peak backing) with 1000. change (max_possible_amplitude backing) with 32768.
    unfold _spawn, audioop.mul. simpl.
    change (audioop.minval 2) with (-32768). change (audioop.maxval 2) with 32767.
    f_equal. f_equal; [|f_equal].
    - apply fbound_floor; lra.
    - apply fbound_floor; lra. }
  split; [exact Hn|]. rewrite Hn. split.
  - rewrite max_dBFS_of_peak by (simpl; lia).
    change (peak (mkSeg [29204; -5841] 2 44100 2)) with 29204.
    change (max_possible_amplitude (mkSeg [29204; -5841] 2 44100 2)) with 32768.
    simpl. eexists. split; [reflexivity|].
    apply level_below_minus_one; lra.
  - change (peak (mkSeg [29204; -5841] 2 44100 2)) with 29204.
    unfold minus_one_dBFS.
    change (max_possible_amplitude backing) with 32768. lra.
Qed.

(** ** Muting by gain *)

Lemma db_to_float_minus_120 : db_to_float (-120) = (/ 1000000)%R.
Proof.
  unfold db_to_float.
  replace (-120 / 20)%R with (- INR 6)%R by (simpl; field).
  rewrite Rpower_Ropp, Rpower_pow by lra. f_equal. simpl. ring.
Qed.

(** A sample attenuated by -120 dB is at most a millionth of full scale,
    plus the step that rounding down may add. *)
Lemma muted_sample_small (w d : Z) :
  1 <= w -> in_range w d ->
  Z.abs (audioop.fbound (IZR d * / 1000000) (audioop.minval w) (audioop.maxval w))
  <= 2 ^ (8 * w - 1) / 1000000 + 1.
Proof.
  intros Hw [Hlo Hhi].
  destruct (range_of_width w) as [Emin Emax]. rewrite Emin, Emax in *.
  pose proof (full_scale_pos w Hw) as Hfull.
  set (full := 2 ^ (8 * w - 1)) in *.
  assert (HloR : (- IZR full <= IZR d)%R) by (rewrite <- opp_IZR; apply IZR_le; lia).
  assert (HhiR : (IZR d <= IZR full - 1)%R) by (rewrite <- minus_IZR; apply IZR_le; lia).
  assert (HfR : (128 <= IZR full)%R) by (apply IZR_le; assumption).
  rewrite fbound_inside.
  2:{ rewrite opp_IZR, minus_IZR. lra. }
  pose proof (Int_part_bounds (IZR d * / 1000000)) as [Hfl Hfu].
  set (o := Int_part (IZR d * / 1000000)) in *.
  assert (Hup : o <= full / 1000000).
  { apply Z.div_le_lower_bound; [lia|]. apply le_IZR. rewrite mult_IZR. lra. }
  assert (Hdn : - (o + 1) <= full / 1000000).
  { apply Z.div_le_lower_bound; [lia|]. apply le_IZR.
    rewrite mult_IZR, opp_IZR, plus_IZR. lra. }
  pose proof (Z.div_pos full 1000000). lia.
Qed.

Lemma kappa_window_32 : (1913946815 / 2147483648 < kappa < 1913946816 / 2147483648)%R.
Proof.
  split.
  - apply (ratio_lt_kappa 1913946815 2147483648); [lia | lia | vm_compute; reflexivity].
  - apply (kappa_lt_ratio 1913946816 2147483648); [lia | lia | vm_compute; reflexivity].
Qed.

Section Mute.
Context {F : Type} `{PyFloat F}.
Variable ratecv : list Z -> Z -> Z -> Z -> Z -> list Z.

(** C6, as amended.  Every drum gain, -120 dB included, goes through
    [apply_gain].  Before the loudness normalization: let the mix be a
    buffer of whole milliseconds whose samples fit its width, and let the
    drums have its channels and frame rate and samples that fit their
    width.  Then overlaying the drums attenuated by -120 dB raises nothing,
    keeps the length of the mix, and moves no sample of it, taken at the
    common sample width of the two, by more than a millionth of the full
    scale of the drums plus one sample step of the drums (on stems of one
    width: a millionth of full scale plus one step), compared with leaving
    the drums out. *)
Theorem muted_drums_residue (backing drums : AudioSegment) :
  shares_layout backing drums -> 0 < channels backing ->
  well_formed backing -> well_formed drums -> whole_ms (F:=F) backing ->
  (forall g d, attenuate (Some g) d = apply_gain d g)
  /\ exists out,
       overlay (F:=F) ratecv backing (attenuate (Some (-120)%R) drums) 0 = Ok out
       /\ sample_width out = Z.max (sample_width backing) (sample_width drums)
       /\ length (samples out) = length (samples backing)
       /\ forall i,
            Z.abs (nth i (samples out) 0 - nth i (at_width (sample_width out) backing) 0)
            <= (2 ^ (8 * sample_width drums - 1) / 1000000 + 1)
               * 2 ^ (8 * (sample_width out - sample_width drums)).
Proof.
  intros Hs Hc [Hwb Hrb] [Hwd Hrd] Hw. split; [reflexivity|].
  set (quiet := attenuate (Some (-120)%R) drums).
  assert (Hs' : shares_layout backing quiet) by exact Hs.
  rewrite (overlay_shared ratecv backing quiet Hs' Hw Hc Hwb).
  change (sample_width quiet) with (sample_width drums).
  set (W := Z.max (sample_width backing) (sample_width drums)).
  eexists. split; [reflexivity|]. cbn [samples sample_width].
  split; [reflexivity|]. split.
  - rewrite mixed_length. apply at_width_length.
  - assert (Hk : 0 < 2 ^ (8 * (W - sample_width drums)))
      by (apply Z.pow_pos_nonneg; unfold W; lia).
    pose proof (Z.div_pos (2 ^ (8 * sample_width drums - 1)) 1000000
                  ltac:(apply Z.pow_nonneg; lia) ltac:(lia)) as Hq.
    apply mixed_near.
    + nia.
    + unfold at_width, audioop.lin2lin. apply Forall_forall. intros x Hx.
      apply in_map_iff in Hx. destruct Hx as [s [<- Hin]].
      rewrite shiftl_scale by (unfold W; lia).
      apply scaled_in_range; [assumption | unfold W; lia |].
      rewrite Forall_forall in Hrb. auto.
    + unfold at_width, audioop.lin2lin.
      change (sample_width quiet) with (sample_width drums).
      apply Forall_forall. intros x Hx.
      apply in_map_iff in Hx. destruct Hx as [e [<- Hin]].
      rewrite shiftl_scale by (unfold W; lia).
      rewrite Z.abs_mul, (Z.abs_eq (2 ^ (8 * (W - sample_width drums)))) by lia.
      apply Z.mul_le_mono_nonneg_r; [lia|].
      unfold quiet, attenuate, apply_gain, _spawn, audioop.mul in Hin.
      cbn [samples] in Hin. rewrite db_to_float_minus_120 in Hin.
      apply in_map_iff in Hin. destruct Hin as [d [<- Hd]].
      apply muted_sample_small; [assumption|].
      rewrite Forall_forall in Hrd. auto.
Qed.

End Mute.

(** C6, as amended, in binary64 at a 16-bit mix of 2 ms and full-scale
    32-bit drums. *)
Lemma muted_drums_residue_witness :
  let backing := mkSeg [1000; -200; 5; 7] 2 1000 2 in
  let drums := mkSeg [-2147483648; 2147483647; 100; -100] 4 1000 2 in
  (forall g d, attenuate (Some g) d = apply_gain d g)
  /\ exists out,
       overlay (F:=float) no_resampling backing (attenuate (Some (-120)%R) drums) 0 = Ok out
       /\ sample_width out = Z.max (sample_width backing) (sample_width drums)
       /\ length (samples out) = length (samples backing)
       /\ forall i,
            Z.abs (nth i (samples out) 0 - nth i (at_width (sample_width out) backing) 0)
            <= (2 ^ (8 * sample_width drums - 1) / 1000000 + 1)
               * 2 ^ (8 * (sample_width out - sample_width drums)).
Proof.
  intros backing drums.
  apply (muted_drums_residue (F:=float) no_resampling backing drums).
  - split; reflexivity.
  - simpl. lia.
  - split; [simpl; lia|]. simpl.
    repeat (apply Forall_cons; [apply sample_in_range_16; lia|]). apply Forall_nil.
  - split; [simpl; lia|]. simpl.
    repeat (apply Forall_cons; [split; vm_compute; discriminate|]). apply Forall_nil.
  - whole_ms_by_computation 2.
Defined.

Lemma mul_repeat (w x : Z) (n : nat) (f : R) :
  audioop.mul w (repeat x n) f
  = repeat (audioop.fbound (IZR x * f) (audioop.minval w) (audioop.maxval w)) n.
Proof.
  unfold audioop.mul. induction n as [|n IH]; [reflexivity|].
  cbn [repeat map]. now rewrite IH.
Qed.

Lemma muted_drums_16 :
  let silence := mkSeg (repeat 0 882) 2 44100 2 in
  let drums := mkSeg (repeat (-1000) 882) 2 44100 2 in
  mixdown (F:=float) no_resampling silent_stem no_fade (fun _ => []) 0 (fun _ => None)
    false None false (Some (-120)%R) silence drums silence silence silence []
  = Some (Ok (mkSeg (repeat (-29205) 882) 2 44100 2), [])
  /\ bind (canvas (F:=float) 10 44100) (fun base =>
      bind (spec.overlay_stems_without_drums (F:=float) no_resampling base
              silence silence silence)
           (fun b => Ok (normalize b)))
     = Ok silence.
Proof.
  intros silence drums.
  destruct kappa_window as [Klo Khi].
  assert (Hd : attenuate (Some (-120)%R) drums = mkSeg (repeat (-1) 882) 2 44100 2).
  { unfold attenuate, apply_gain, _spawn, drums.
    cbn [samples sample_width frame_rate channels].
    rewrite mul_repeat, db_to_float_minus_120.
    change (audioop.minval 2) with (-32768). change (audioop.maxval 2) with 32767.
    do 2 f_equal. apply fbound_floor; lra. }
  assert (Hlen : _longest_duration_ms (F:=float) [silence; drums; silence; silence; silence]
                 = Ok 10) by (vm_compute; reflexivity).
  assert (Hcanvas : canvas (F:=float) 10 44100 = Ok silence) by (vm_compute; reflexivity).
  assert (Hmix : overlay_stems (F:=float) no_resampling silence silence silence silence
                   (mkSeg (repeat (-1) 882) 2 44100 2)
                 = Ok (mkSeg (repeat (-1) 882) 2 44100 2)) by (vm_compute; reflexivity).
  assert (Hwithout : spec.overlay_stems_without_drums (F:=float) no_resampling silence
                       silence silence silence = Ok silence) by (vm_compute; reflexivity).
  split.
  - unfold mixdown, and_then, lift, ret. rewrite Hlen.
    change (frame_rate silence) with 44100. rewrite Hcanvas, Hd, Hmix.
    unfold beat_grid, ret, click_stage. do 3 f_equal.
    unfold normalize, apply_gain.
    rewrite normalize_factor by (vm_compute; (reflexivity || discriminate)).
    change (peak (mkSeg (repeat (-1) 882) 2 44100 2)) with 1.
    change (max_possible_amplitude (mkSeg (repeat (-1) 882) 2 44100 2)) with 32768.
    unfold _spawn. cbn [samples sample_width frame_rate channels].
    rewrite mul_repeat.
    change (audioop.minval 2) with (-32768). change (audioop.maxval 2) with 32767.
    do 2 f_equal. apply fbound_floor; lra.
  - rewrite Hcanvas. cbn [bind]. rewrite Hwithout. cbn [bind]. f_equal.
    assert (Hs : max_dBFS silence = NegInf).
    { apply max_dBFS_silent; [simpl; lia | vm_compute; reflexivity]. }
    unfold normalize, normalize_gain. rewrite Hs.
    apply apply_gain_0. split; [simpl; lia|].
    unfold silence. cbn [samples sample_width].
    apply Forall_forall. intros x Hx. apply repeat_spec in Hx. subst x.
    split; vm_compute; discriminate.
Qed.

Lemma muted_drums_32 :
  let silence := mkSeg (repeat 0 882) 4 44100 2 in
  let drums := mkSeg (repeat (-2000000000) 882) 4 44100 2 in
  mixdown (F:=float) no_resampling silent_stem no_fade (fun _ => []) 0 (fun _ => None)
    false None false (Some (-120)%R) silence drums silence silence silence []
  = Some (Ok (mkSeg (repeat (-1913946816) 882) 4 44100 2), [])
  /\ bind (canvas (F:=float) 10 44100) (fun base =>
      bind (spec.overlay_stems_without_drums (F:=float) no_resampling base
              silence silence silence)
           (fun b => Ok (normalize b)))
     = Ok silence.
Proof.
  intros silence drums.
  destruct kappa_window_32 as [Klo Khi].
  set (base := mkSeg (repeat 0 882) 2 44100 2).
  assert (Hd : attenuate (Some (-120)%R) drums = mkSeg (repeat (-2000) 882) 4 44100 2).
  { unfold attenuate, apply_gain, _spawn, drums.
    cbn [samples sample_width frame_rate channels].
    rewrite mul_repeat, db_to_float_minus_120.
    change (audioop.minval 4) with (-2147483648).
    change (audioop.maxval 4) with 2147483647.
    do 2 f_equal. apply fbound_floor; lra. }
  assert (Hlen : _longest_duration_ms (F:=float) [silence; drums; silence; silence; silence]
                 = Ok 10) by (vm_compute; reflexivity).
  assert (Hcanvas : canvas (F:=float) 10 44100 = Ok base) by (vm_compute; reflexivity).
  assert (Hmix : overlay_stems (F:=float) no_resampling base silence silence silence
                   (mkSeg (repeat (-2000) 882) 4 44100 2)
                 = Ok (mkSeg (repeat (-2000) 882) 4 44100 2)) by (vm_compute; reflexivity).
  assert (Hwithout : spec.overlay_stems_without_drums (F:=float) no_resampling base
                       silence silence silence = Ok silence) by (vm_compute; reflexivity).
  split.
  - unfold mixdown, and_then, lift, ret. rewrite Hlen.
    change (frame_rate silence) with 44100. rewrite Hcanvas, Hd, Hmix.
    unfold beat_grid, ret, click_stage. do 3 f_equal.
    unfold normalize, apply_gain.
    rewrite normalize_factor by (vm_compute; (reflexivity || discriminate)).
    change (peak (mkSeg (repeat (-2000) 882) 4 44100 2)) with 2000.
    change (max_possible_amplitude (mkSeg (repeat (-2000) 882) 4 44100 2)) with 2147483648.
    unfold _spawn. cbn [samples sample_width frame_rate channels].
    rewrite mul_repeat.
    change (audioop.minval 4) with (-2147483648).
    change (audioop.maxval 4) with 2147483647.
    do 2 f_equal. apply fbound_floor; lra.
  - rewrite Hcanvas. cbn [bind]. rewrite Hwithout. cbn [bind]. f_equal.
    assert (Hs : max_dBFS silence = NegInf).
    { apply max_dBFS_silent; [simpl; lia | vm_compute; reflexivity]. }
    unfold normalize, normalize_gain. rewrite Hs.
    apply apply_gain_0. split; [simpl; lia|].
    unfold silence. cbn [samples sample_width].
    apply Forall_forall. intros x Hx. apply repeat_spec in Hx. subst x.
    split; vm_compute; discriminate.
Qed.

(** C6 as stated fails once the other stems are silent: the residue of the
    attenuated drums is the peak of the mix, and the normalization raises it
    to -1 dBFS, where the mixdown without drums stays silent.  Both runs are
    the mixdown in binary64 of 10 ms of stems at 44100 frames per second.
    On 16-bit stems the residue is the -1 that rounding toward minus
    infinity leaves of every negative sample, and the output is at -29205;
    on 32-bit stems it is the attenuated signal itself, and the output is at
    -1913946816. *)
Lemma muted_drums_are_not_omitted :
  (let silence := mkSeg (repeat 0 882) 2 44100 2 in
   let drums := mkSeg (repeat (-1000) 882) 2 44100 2 in
   mixdown (F:=float) no_resampling silent_stem no_fade (fun _ => []) 0 (fun _ => None)
     false None false (Some (-120)%R) silence drums silence silence silence []
   = Some (Ok (mkSeg (repeat (-29205) 882) 2 44100 2), [])
   /\ bind (canvas (F:=float) 10 44100) (fun base =>
       bind (spec.overlay_stems_without_drums (F:=float) no_resampling base
               silence silence silence)
            (fun b => Ok (normalize b)))
      = Ok silence)
  /\ (let silence := mkSeg (repeat 0 882) 4 44100 2 in
      let drums := mkSeg (repeat (-2000000000) 882) 4 44100 2 in
      mixdown (F:=float) no_resampling silent_stem no_fade (fun _ => []) 0 (fun _ => None)
        false None false (Some (-120)%R) silence drums silence silence silence []
      = Some (Ok (mkSeg (repeat (-1913946816) 882) 4 44100 2), [])
      /\ bind (canvas (F:=float) 10 44100) (fun base =>
          bind (spec.overlay_stems_without_drums (F:=float) no_resampling base
                  silence silence silence)
               (fun b => Ok (normalize b)))
         = Ok silence).
Proof. split; [exact muted_drums_16 | exact muted_drums_32]. Qed.

(* ===================================================================== *)
(** * The commands around the mixdown *)
(* ===================================================================== *)

Import Ascii commands.

(** ** Song names *)

Lemma rfind_from_app c s1 s2 i last :
  rfind_from c (s1 ++ s2) i last
  = rfind_from c s2 (i + String.length s1) (rfind_from c s1 i last).
Proof.
  revert i last. induction s1 as [|a s1 IH]; intros i last; simpl.
  - now rewrite Nat.add_0_r.
  - rewrite IH. now rewrite Nat.add_succ_r.
Qed.

Lemma rfind_from_absent c s i last : occurs c s = false -> rfind_from c s i last = last.
Proof.
  revert i last. induction s as [|a s IH]; intros i last; simpl; [reflexivity|].
  intros E. apply orb_false_iff in E as [Ea Es]. rewrite Ea. now apply IH.
Qed.

Lemma rfind_last_dot base ext :
  occurs "." ext = false -> rfind "." (base ++ String "." ext) = Some (String.length base).
Proof.
  intros E. unfold rfind. rewrite rfind_from_app. simpl.
  now rewrite rfind_from_absent.
Qed.

Lemma length_append s t : String.length (s ++ t) = (String.length s + String.length t)%nat.
Proof. induction s as [|a s IH]; simpl; [reflexivity | now rewrite IH]. Qed.

Lemma substring_prefix s t : substring 0 (String.length s) (s ++ t) = s.
Proof.
  induction s as [|a s IH]; simpl.
  - destruct t; reflexivity.
  - now rewrite IH.
Qed.

Lemma stem_of_extension base ext :
  base <> EmptyString -> ext <> EmptyString -> occurs "." ext = false ->
  stem (base ++ String "." ext) = base.
Proof.
  intros Hb He Hd. unfold stem. rewrite rfind_last_dot by assumption.
  rewrite length_append. simpl String.length.
  destruct base as [|a base]; [congruence|].
  destruct ext as [|b ext]; [congruence|].
  replace ((0 <? String.length (String a base))%nat) with true by reflexivity.
  replace ((String.length (String a base) <?
            String.length (String a base) + S (String.length (String b ext)) - 1)%nat)
    with true by (symmetry; apply Nat.ltb_lt; simpl; lia).
  simpl andb. cbv iota. apply substring_prefix.
Qed.

Lemma occurs_replace_char old new s :
  old <> new -> occurs old (replace_char old new s) = false.
Proof.
  intros Hne. induction s as [|a s IH]; simpl; [reflexivity|].
  rewrite IH, orb_false_r.
  destruct (Ascii.eqb a old) eqn:E; [|exact E].
  apply Ascii.eqb_neq. congruence.
Qed.

Lemma replace_char_absent old new s :
  occurs old s = false -> replace_char old new s = s.
Proof.
  induction s as [|a s IH]; simpl; [reflexivity|].
  intros E. apply orb_false_iff in E as [Ea Es]. rewrite Ea. now rewrite IH.
Qed.

Lemma rfind_from_replace s i last :
  rfind_from "." (replace_char " " "_" s) i last = rfind_from "." s i last.
Proof.
  revert i last. induction s as [|a s IH]; intros i last; simpl; [reflexivity|].
  rewrite IH. destruct (Ascii.eqb a " ") eqn:E; [|reflexivity].
  apply Ascii.eqb_eq in E. subst a. reflexivity.
Qed.

Lemma length_replace_char old new s :
  String.length (replace_char old new s) = String.length s.
Proof. induction s as [|a s IH]; simpl; [reflexivity | now rewrite IH]. Qed.

Lemma substring_replace_char old new s :
  forall n m, substring n m (replace_char old new s) = replace_char old new (substring n m s).
Proof.
  induction s as [|a s IH]; intros n m.
  - destruct n, m; reflexivity.
  - destruct n as [|n]; [destruct m as [|m]|]; simpl; [reflexivity | now rewrite IH | apply IH].
Qed.

Lemma stem_replace_char name :
  stem (replace_char " " "_" name) = replace_char " " "_" (stem name).
Proof.
  unfold stem, rfind. rewrite rfind_from_replace, length_replace_char.
  destruct (rfind_from "." name 0 None) as [i|]; [|reflexivity].
  destruct ((0 <? i)%nat && (i <? String.length name - 1)%nat); [|reflexivity].
  apply substring_replace_char.
Qed.

(** X1.  The name [normalize_song_name] returns holds no space. *)
Theorem normalize_song_name_has_no_space name :
  occurs " " (normalize_song_name name) = false.
Proof. unfold normalize_song_name. apply occurs_replace_char. discriminate. Qed.

(** X2.  For a file name [base.ext] with [base] and [ext] not empty and no
    dot in [ext], [normalize_song_name] drops the dot and [ext], keeps every
    earlier dot of [base], and replaces each space of [base] by an
    underscore. *)
Theorem normalize_song_name_drops_last_extension base ext :
  base <> EmptyString -> ext <> EmptyString -> occurs "." ext = false ->
  normalize_song_name (base ++ String "." ext) = replace_char " " "_" base.
Proof.
  intros Hb He Hd. unfold normalize_song_name.
  now rewrite stem_of_extension.
Qed.

(** X2 at a name with two dots and a space. *)
Lemma normalize_song_name_drops_last_extension_witness :
  normalize_song_name ("My Song.v2" ++ String "." "mp3") = replace_char " " "_" "My Song.v2".
Proof.
  apply normalize_song_name_drops_last_extension; [discriminate | discriminate | reflexivity].
Defined.

(** X3.  A name is kept whole, with only its spaces replaced, when it has
    no dot, when its only dot is its first character, and when it ends with
    a dot. *)
Theorem normalize_song_name_keeps_whole_name :
  (forall name, occurs "." name = false ->
     normalize_song_name name = replace_char " " "_" name)
  /\ (forall rest, occurs "." rest = false ->
     normalize_song_name (String "." rest) = replace_char " " "_" (String "." rest))
  /\ (forall base,
     normalize_song_name (base ++ ".") = replace_char " " "_" (base ++ ".")).
Proof.
  unfold normalize_song_name, stem. split; [|split].
  - intros name Hd. unfold rfind. now rewrite rfind_from_absent.
  - intros rest Hd. unfold rfind. simpl rfind_from. now rewrite rfind_from_absent.
  - intros base. rewrite (rfind_last_dot base EmptyString) by reflexivity.
    rewrite length_append. simpl String.length.
    replace ((String.length base <? String.length base + 1 - 1)%nat) with false
      by (symmetry; apply Nat.ltb_ge; lia).
    now rewrite andb_false_r.
Qed.

(** X3 at a name without dot, a hidden file and a name with a final dot. *)
Lemma normalize_song_name_keeps_whole_name_witness :
  normalize_song_name "take 1" = replace_char " " "_" "take 1"
  /\ normalize_song_name (String "." "hidden") = replace_char " " "_" (String "." "hidden")
  /\ normalize_song_name ("a.b" ++ ".") = replace_char " " "_" ("a.b" ++ ".").
Proof.
  split; [|split].
  - apply (proj1 normalize_song_name_keeps_whole_name). reflexivity.
  - apply (proj1 (proj2 normalize_song_name_keeps_whole_name)). reflexivity.
  - apply (proj2 (proj2 normalize_song_name_keeps_whole_name)).
Defined.

(** X4.  Two files whose names differ only by spaces written as
    underscores get the same song name, and so do two files that differ
    only in their last extension: [separate] sends them to the same
    default destination directory. *)
Theorem normalize_song_name_collisions :
  (forall name out_dir,
     dest_root out_dir (normalize_song_name (replace_char " " "_" name))
     = dest_root out_dir (normalize_song_name name))
  /\ (forall base ext ext' out_dir,
     base <> EmptyString -> ext <> EmptyString -> ext' <> EmptyString ->
     occurs "." ext = false -> occurs "." ext' = false ->
     dest_root out_dir (normalize_song_name (base ++ String "." ext))
     = dest_root out_dir (normalize_song_name (base ++ String "." ext'))).
Proof.
  split.
  - intros name out_dir. f_equal. unfold normalize_song_name.
    rewrite stem_replace_char.
    apply replace_char_absent, occurs_replace_char. discriminate.
  - intros base ext ext' out_dir Hb He He' Hd Hd'. f_equal.
    unfold normalize_song_name. now rewrite !stem_of_extension.
Qed.

(** X4 at the MP3 and the WAV file of one song. *)
Lemma normalize_song_name_collisions_witness :
  dest_root None (normalize_song_name ("My Song" ++ String "." "mp3"))
  = dest_root None (normalize_song_name ("My Song" ++ String "." "wav")).
Proof.
  apply (proj2 normalize_song_name_collisions);
    [discriminate | discriminate | discriminate | reflexivity | reflexivity].
Defined.

(** ** Copying the stems *)

Lemma write_same {A : Type} (d : folder A) n a : write d n a n = Some a.
Proof. unfold write. now rewrite String.eqb_refl. Qed.

Lemma write_other {A : Type} (d : folder A) n a m : m <> n -> write d n a m = d m.
Proof. intros Hne. unfold write. apply String.eqb_neq in Hne. now rewrite Hne. Qed.

(** The loop over names that are all there: every one is copied, in turn. *)
Lemma copy_loop_present {A : Type} src_dir (src : folder A) names :
  forall dest,
    (forall n, In n names -> src n <> None) ->
    fst (copy_loop src_dir src dest names) = Ok tt
    /\ (forall m, In m names -> snd (copy_loop src_dir src dest names) m = src m)
    /\ (forall m, ~ In m names -> snd (copy_loop src_dir src dest names) m = dest m).
Proof.
  induction names as [|n rest IH]; intros dest Hall.
  - simpl. split; [reflexivity|]. split; [intros m [] | reflexivity].
  - simpl. destruct (src n) as [a|] eqn:Hn; [|exfalso; apply (Hall n); [now left | exact Hn]].
    destruct (IH (write dest n a)) as [Hok [Hin Hout]].
    { intros k Hk. apply Hall. now right. }
    split; [exact Hok|]. split.
    + intros m Hm. destruct (in_dec string_dec m rest) as [Hr | Hr]; [now apply Hin|].
      rewrite Hout by assumption.
      destruct Hm as [-> | Hm]; [|contradiction].
      rewrite write_same. now symmetry.
    + intros m Hm. rewrite Hout by (intros Hr; apply Hm; now right).
      apply write_other. intros ->. apply Hm. now left.
Qed.

(** The loop stops at the first name that is not there. *)
Lemma copy_loop_absent {A : Type} src_dir (src : folder A) pre n post :
  forall dest,
    (forall m, In m pre -> src m <> None) -> src n = None ->
    fst (copy_loop src_dir src dest (pre ++ n :: post))
    = Raise (FileNotFoundError (missing_stem_message ++ path_of src_dir n))
    /\ (forall m, In m pre -> snd (copy_loop src_dir src dest (pre ++ n :: post)) m = src m)
    /\ (forall m, ~ In m pre -> snd (copy_loop src_dir src dest (pre ++ n :: post)) m = dest m).
Proof.
  induction pre as [|k pre IH]; intros dest Hpre Hn.
  - simpl. rewrite Hn. simpl. split; [reflexivity|]. split; [intros m [] | reflexivity].
  - simpl. destruct (src k) as [a|] eqn:Hk; [|exfalso; apply (Hpre k); [now left | exact Hk]].
    destruct (IH (write dest k a)) as [Hraise [Hin Hout]]; [|exact Hn|].
    { intros m Hm. apply Hpre. now right. }
    split; [exact Hraise|]. split.
    + intros m Hm. destruct (in_dec string_dec m pre) as [Hr | Hr]; [now apply Hin|].
      rewrite Hout by assumption.
      destruct Hm as [-> | Hm]; [|contradiction].
      rewrite write_same. now symmetry.
    + intros m Hm. rewrite Hout by (intros Hr; apply Hm; now right).
      apply write_other. intros ->. apply Hm. now left.
Qed.

Lemma copy_loop_ok_present {A : Type} src_dir (src : folder A) names :
  forall dest,
    fst (copy_loop src_dir src dest names) = Ok tt -> forall n, In n names -> src n <> None.
Proof.
  induction names as [|k rest IH]; intros dest Hok n Hin; [destruct Hin|].
  simpl in Hok. destruct (src k) as [a|] eqn:Hk; [|discriminate].
  destruct Hin as [<- | Hin]; [congruence|].
  now apply (IH (write dest k a)).
Qed.

Lemma has_all_stems_present {A : Type} (d : found_dir A) :
  has_all_stems d = true <-> (forall n, In n stem_files -> dir_files d n <> None).
Proof.
  unfold has_all_stems. rewrite forallb_forall. split; intros Hall n Hn.
  - specialize (Hall n Hn). destruct (dir_files d n); [discriminate | discriminate].
  - specialize (Hall n Hn). destruct (dir_files d n); [reflexivity | congruence].
Qed.

(** X5.  [copy_stems] returns without raising exactly when the source
    directory has all four stems. *)
Theorem copy_stems_succeeds_iff_all_stems {A : Type} src_dir (src dest : folder A) :
  fst (copy_stems src_dir src dest) = Ok tt
  <-> (forall n, In n stem_files -> src n <> None).
Proof.
  unfold copy_stems. split.
  - apply copy_loop_ok_present.
  - intros Hall. now apply copy_loop_present.
Qed.

(** X6.  When the source directory has all four stems, the destination
    holds the four source files under their names afterwards, and every
    other file of the destination is as it was. *)
Theorem copy_stems_copies_the_four_stems {A : Type} src_dir (src dest : folder A) :
  (forall n, In n stem_files -> src n <> None) ->
  (forall m, In m stem_files -> snd (copy_stems src_dir src dest) m = src m)
  /\ (forall m, ~ In m stem_files -> snd (copy_stems src_dir src dest) m = dest m).
Proof. intros Hall. unfold copy_stems. now apply copy_loop_present. Qed.

Lemma full_source_present : forall n, In n stem_files -> full_source n <> None.
Proof.
  intros n Hn. simpl in Hn.
  destruct Hn as [<- | [<- | [<- | [<- | []]]]]; discriminate.
Qed.

(** X6 at a destination that already holds a bass.wav and a mix.wav. *)
Lemma copy_stems_copies_the_four_stems_witness :
  (forall m, In m stem_files -> snd (copy_stems "src" full_source old_files) m = full_source m)
  /\ (forall m, ~ In m stem_files -> snd (copy_stems "src" full_source old_files) m = old_files m).
Proof.
  apply copy_stems_copies_the_four_stems. exact full_source_present.
Defined.

(** X7.  When a stem is absent and every stem before it in the order
    vocals, drums, bass, other is there, [copy_stems] raises a
    FileNotFoundError with the path of that stem; the stems before it have
    then been copied to the destination already, and no other file of the
    destination has changed. *)
Theorem copy_stems_stops_at_first_missing {A : Type} src_dir (src dest : folder A) pre n post :
  stem_files = pre ++ n :: post ->
  (forall m, In m pre -> src m <> None) -> src n = None ->
  fst (copy_stems src_dir src dest)
  = Raise (FileNotFoundError (missing_stem_message ++ path_of src_dir n))
  /\ (forall m, In m pre -> snd (copy_stems src_dir src dest) m = src m)
  /\ (forall m, ~ In m pre -> snd (copy_stems src_dir src dest) m = dest m).
Proof.
  intros Hsplit Hpre Hn. unfold copy_stems. rewrite Hsplit.
  now apply copy_loop_absent.
Qed.

(** X7 at a source without bass.wav. *)
Lemma copy_stems_stops_at_first_missing_witness :
  fst (copy_stems "src" source_without_bass old_files)
  = Raise (FileNotFoundError (missing_stem_message ++ path_of "src" "bass.wav"))
  /\ (forall m, In m ["vocals.wav"; "drums.wav"]%string ->
        snd (copy_stems "src" source_without_bass old_files) m = source_without_bass m)
  /\ (forall m, ~ In m ["vocals.wav"; "drums.wav"]%string ->
        snd (copy_stems "src" source_without_bass old_files) m = old_files m).
Proof.
  apply (copy_stems_stops_at_first_missing "src" source_without_bass old_files
           ["vocals.wav"; "drums.wav"]%string "bass.wav"%string ["other.wav"]%string).
  - reflexivity.
  - intros m [<- | [<- | []]]; discriminate.
  - reflexivity.
Defined.

(** ** Finding what Demucs wrote *)

Lemma filter_none {A : Type} (f : A -> bool) (l : list A) :
  filter f l = [] <-> (forall x, In x l -> f x = false).
Proof.
  induction l as [|a l IH]; simpl.
  - split; [intros _ x [] | reflexivity].
  - destruct (f a) eqn:E; split.
    + discriminate.
    + intros Hall. specialize (Hall a (or_introl eq_refl)). congruence.
    + intros Hnil x [<- | Hx]; [exact E | now apply IH].
    + intros Hall. apply IH. intros x Hx. apply Hall. now right.
Qed.

Lemma filter_first {A : Type} (f : A -> bool) (pre post : list A) (d : A) :
  (forall x, In x pre -> f x = false) -> f d = true ->
  filter f (pre ++ d :: post) = d :: filter f post.
Proof.
  intros Hpre Hd. rewrite filter_app.
  rewrite (proj2 (filter_none f pre) Hpre). simpl. now rewrite Hd.
Qed.

(** X8.  [find_stems_dir] raises exactly when no parent of a vocals.wav
    bears the name of the song (letter case apart) and no directory holds
    all four stems; the exception is then the FileNotFoundError of line
    91. *)
Theorem find_stems_dir_raises_iff {A : Type} lower
  (vocals_parents all_dirs : list (found_dir A)) song_name e :
  find_stems_dir lower vocals_parents all_dirs song_name = Raise e
  <-> e = FileNotFoundError no_output_message
      /\ (forall d, In d vocals_parents -> named_like lower song_name d = false)
      /\ (forall d, In d all_dirs -> has_all_stems d = false).
Proof.
  unfold find_stems_dir.
  destruct (filter (named_like lower song_name) vocals_parents) as [|c cs] eqn:Ec.
  - destruct (filter has_all_stems all_dirs) as [|c' cs'] eqn:Ea.
    + split.
      * intros [= <-]. repeat split; [now apply filter_none | now apply filter_none].
      * intros [-> _]. reflexivity.
    + split; [discriminate|].
      intros [_ [_ Hall]]. apply filter_none in Hall. congruence.
  - split; [discriminate|].
    intros [_ [Hnone _]]. apply filter_none in Hnone. congruence.
Qed.

(** X9.  A parent of a vocals.wav that bears the name of the song is
    chosen before any other directory: the first such parent is returned
    whether it holds the other stems or not, and whatever directories hold
    all four. *)
Theorem find_stems_dir_prefers_the_song_name {A : Type} lower
  (pre post all_dirs : list (found_dir A)) (d : found_dir A) song_name :
  (forall p, In p pre -> named_like lower song_name p = false) ->
  named_like lower song_name d = true ->
  find_stems_dir lower (pre ++ d :: post) all_dirs song_name = Ok d.
Proof.
  intros Hpre Hd. unfold find_stems_dir.
  now rewrite (filter_first _ pre post d Hpre Hd).
Qed.

(** X9 at a directory named like the song that only has a vocals.wav, met before the
    complete directory. *)
Lemma find_stems_dir_prefers_the_song_name_witness :
  find_stems_dir (fun s => replace_char "S" "s" s) ([] ++ vocals_only_dir :: [demucs_dir])
    [demucs_dir] "song" = Ok vocals_only_dir.
Proof.
  apply find_stems_dir_prefers_the_song_name; [intros p [] | reflexivity].
Defined.

(** X10.  When no parent of a vocals.wav bears the name of the song, the
    first directory of the walk that holds all four stems is returned, and
    [copy_stems] from it does not raise. *)
Theorem find_stems_dir_falls_back_to_complete_dir {A : Type} lower
  (vocals_parents pre post : list (found_dir A)) (d : found_dir A) song_name
  (dest : folder A) :
  (forall p, In p vocals_parents -> named_like lower song_name p = false) ->
  (forall p, In p pre -> has_all_stems p = false) ->
  has_all_stems d = true ->
  find_stems_dir lower vocals_parents (pre ++ d :: post) song_name = Ok d
  /\ fst (copy_stems (dir_path d) (dir_files d) dest) = Ok tt.
Proof.
  intros Hname Hpre Hd. split.
  - unfold find_stems_dir.
    rewrite (proj2 (filter_none _ vocals_parents) Hname).
    now rewrite (filter_first _ pre post d Hpre Hd).
  - unfold copy_stems. apply copy_loop_present. now apply has_all_stems_present.
Qed.

(** X10 at a song name that no directory bears. *)
Lemma find_stems_dir_falls_back_to_complete_dir_witness :
  find_stems_dir (fun s => s) [vocals_only_dir] ([vocals_only_dir] ++ demucs_dir :: [])
    "My_Song" = Ok demucs_dir
  /\ fst (copy_stems (dir_path demucs_dir) (dir_files demucs_dir) old_files) = Ok tt.
Proof.
  apply find_stems_dir_falls_back_to_complete_dir.
  - intros p [<- | []]. reflexivity.
  - intros p [<- | []]. reflexivity.
  - reflexivity.
Defined.

(** ** [separate] *)

Lemma copy_loop_untouched {A : Type} src_dir (src : folder A) names :
  forall dest m, ~ In m names -> snd (copy_loop src_dir src dest names) m = dest m.
Proof.
  induction names as [|n rest IH]; intros dest m Hm; [reflexivity|].
  simpl. destruct (src n) as [a|]; [|reflexivity].
  rewrite IH by (intros Hr; apply Hm; now right).
  apply write_other. intros ->. apply Hm. now left.
Qed.

Lemma check_required_all_exist {F : Type} `{PyFloat F} (dir : directory (F:=F)) stems_dir names :
  check_required dir stems_dir names = Ok tt
  <-> (forall n, In n names -> file_exists dir n = true).
Proof.
  induction names as [|k rest IH]; simpl.
  - split; [intros _ n [] | reflexivity].
  - destruct (file_exists dir k) eqn:Ek.
    + rewrite IH. split.
      * intros Hall n [<- | Hn]; [exact Ek | now apply Hall].
      * intros Hall n Hn. apply Hall. now right.
    + split; [discriminate|].
      intros Hall. specialize (Hall k (or_introl eq_refl)). congruence.
Qed.

Lemma mix_is_no_stem : ~ In "mix.wav"%string stem_files.
Proof. simpl. intros [E | [E | [E | [E | []]]]]; discriminate. Qed.

Lemma required_stems n : In n required <-> In n stem_files \/ n = "mix.wav"%string.
Proof.
  unfold required, stem_files. simpl. split.
  - intros [<- | [<- | [<- | [<- | [<- | []]]]]]; auto 6.
  - intros [[<- | [<- | [<- | [<- | []]]]] | ->]; auto 6.
Qed.

Section Separation.
Context {A : Type}.
Variable lower : string -> string.
Variable ffmpeg : option A.
Variable which_demucs : option string.
Variable sys_executable : string.
Variable subprocess_run : list string -> Z.
Variable vocals_parents all_dirs : list (found_dir A).

Let run := separate lower ffmpeg which_demucs sys_executable subprocess_run
             vocals_parents all_dirs.

(** What a run that ends with code 0 has gone through. *)
Lemma separate_exit_0 song model out_dir (w w' : workspace A) :
  run song model out_dir w = (0, w') ->
  exists mix d,
    ffmpeg = Some mix
    /\ subprocess_run
         (demucs_command which_demucs sys_executable model
            (path_of (dest_root out_dir (normalize_song_name song)) "_demucs_out")
            (path_of (dest_root out_dir (normalize_song_name song)) "mix.wav")) = 0
    /\ find_stems_dir lower vocals_parents all_dirs (normalize_song_name song) = Ok d
    /\ has_all_stems d = true
    /\ w' = mkWorkspace
              (snd (copy_stems (dir_path d) (dir_files d)
                      (write (dest_files w) "mix.wav" mix))) false.
Proof.
  unfold run, separate, separate_body, run_demucs.
  destruct ffmpeg as [mix|]; [|discriminate].
  destruct (subprocess_run _ =? 0) eqn:Erc; [|discriminate].
  destruct (find_stems_dir _ _ _ _) as [d|e] eqn:Ef; [|discriminate].
  cbn [dest_files].
  destruct (copy_stems _ _ _) as [[[]|e] files] eqn:Ec; [|discriminate].
  intros [= <-]. exists mix, d.
  split; [reflexivity|]. split; [now apply Z.eqb_eq|]. split; [reflexivity|].
  split; [|now rewrite Ec].
  apply has_all_stems_present.
  apply (copy_loop_ok_present (dir_path d) (dir_files d) stem_files
           (write (dest_files w) "mix.wav" mix)).
  unfold copy_stems in Ec. now rewrite Ec.
Qed.

End Separation.

(** X11.  When [separate] ends with code 0, the destination directory
    holds mix.wav and the four stems, so the validation of [make_backing]
    on it passes; [_demucs_out] has been removed; and every file of the
    destination other than these five is as it was. *)
Theorem separate_leaves_what_make_backing_requires {F : Type} `{PyFloat F}
  lower ffmpeg which_demucs sys_executable subprocess_run vocals_parents all_dirs
  song model out_dir (w w' : workspace (file (F:=F))) stems_dir :
  separate lower ffmpeg which_demucs sys_executable subprocess_run vocals_parents all_dirs
    song model out_dir w = (0, w') ->
  check_required (dest_files w') stems_dir required = Ok tt
  /\ temp_out_exists w' = false
  /\ (forall m, ~ In m required -> dest_files w' m = dest_files w m).
Proof.
  intros Hrun.
  destruct (separate_exit_0 _ _ _ _ _ _ _ _ _ _ _ _ Hrun)
    as [mix [d [_ [_ [_ [Hd ->]]]]]].
  pose proof (proj1 (has_all_stems_present d) Hd) as Hall.
  destruct (copy_loop_present (dir_path d) (dir_files d) stem_files
              (write (dest_files w) "mix.wav" mix) Hall) as [_ [Hin Hout]].
  cbn [dest_files temp_out_exists]. unfold copy_stems.
  split; [|split; [reflexivity|]].
  - apply check_required_all_exist. intros n Hn. unfold file_exists.
    apply required_stems in Hn. destruct Hn as [Hn | ->].
    + rewrite Hin by assumption.
      specialize (Hall n Hn). destruct (dir_files d n); [reflexivity | congruence].
    + rewrite Hout by exact mix_is_no_stem. now rewrite write_same.
  - intros m Hm.
    rewrite Hout by (intros Hs; apply Hm; apply required_stems; now left).
    apply write_other. intros ->. apply Hm. apply required_stems. now right.
Qed.

(** X11 at a run into an empty destination. *)
Lemma separate_leaves_what_make_backing_requires_witness :
  let src : folder (file (F:=Q)) := fun _ => Some (Audio silent_stem) in
  let d := mkDir "outputs/song/_demucs_out/htdemucs/song" "song" src in
  let w' := mkWorkspace
              (snd (copy_stems (dir_path d) (dir_files d)
                      (write (fun _ => None) "mix.wav" (Audio silent_stem)))) false in
  check_required (dest_files w') "outputs/song" required = Ok tt
  /\ temp_out_exists w' = false
  /\ (forall m, ~ In m required -> dest_files w' m = None).
Proof.
  intros src d w'.
  apply (separate_leaves_what_make_backing_requires (F:=Q) (fun s => s)
           (Some (Audio silent_stem)) None "python" (fun _ => 0) [d] [d]
           "song.mp3" "htdemucs" None (mkWorkspace (fun _ => None) false) w' "outputs/song").
  reflexivity.
Defined.

(** X12.  [separate] ends with code 0 exactly when ffmpeg has written
    mix.wav, the Demucs process has returned 0, [find_stems_dir] has
    returned a directory, and that directory holds all four stems. *)
Theorem separate_succeeds_iff {A : Type} lower (ffmpeg : option A) which_demucs sys_executable
  subprocess_run vocals_parents all_dirs song model out_dir (w : workspace A) :
  fst (separate lower ffmpeg which_demucs sys_executable subprocess_run vocals_parents
         all_dirs song model out_dir w) = 0
  <-> exists mix d,
        ffmpeg = Some mix
        /\ subprocess_run
             (demucs_command which_demucs sys_executable model
                (path_of (dest_root out_dir (normalize_song_name song)) "_demucs_out")
                (path_of (dest_root out_dir (normalize_song_name song)) "mix.wav")) = 0
        /\ find_stems_dir lower vocals_parents all_dirs (normalize_song_name song) = Ok d
        /\ has_all_stems d = true.
Proof.
  split.
  - destruct (separate _ _ _ _ _ _ _ _ _ _ _) as [code w'] eqn:Hrun. simpl. intros ->.
    destruct (separate_exit_0 _ _ _ _ _ _ _ _ _ _ _ _ Hrun)
      as [mix [d [Hf [Hrc [Hd [Hall _]]]]]].
    exists mix, d. auto.
  - intros [mix [d [Hf [Hrc [Hd Hall]]]]].
    unfold separate, separate_body, run_demucs. rewrite Hf, Hrc, Hd. simpl Z.eqb. cbv iota.
    pose proof (proj1 (has_all_stems_present d) Hall) as Hpresent.
    pose proof (copy_loop_present (dir_path d) (dir_files d) stem_files
                  (write (dest_files w) "mix.wav" mix) Hpresent) as [Hok _].
    cbn [dest_files]. unfold copy_stems.
    destruct (copy_loop _ _ _ _) as [[[]|e] files]; [reflexivity | discriminate].
Qed.

(** X13.  When ffmpeg has written mix.wav and [separate] ends with code 1,
    nothing is cleaned up: mix.wav stays in the destination and
    [_demucs_out] is left in place.  When it is the Demucs process that
    failed, the destination holds no new file but mix.wav. *)
Theorem separate_failure_leaves_files {A : Type} lower (mix : A) which_demucs sys_executable
  subprocess_run vocals_parents all_dirs song model out_dir (w w' : workspace A) :
  separate lower (Some mix) which_demucs sys_executable subprocess_run vocals_parents
    all_dirs song model out_dir w = (1, w') ->
  dest_files w' "mix.wav"%string = Some mix
  /\ temp_out_exists w' = true
  /\ (subprocess_run
        (demucs_command which_demucs sys_executable model
           (path_of (dest_root out_dir (normalize_song_name song)) "_demucs_out")
           (path_of (dest_root out_dir (normalize_song_name song)) "mix.wav")) <> 0 ->
      w' = mkWorkspace (write (dest_files w) "mix.wav" mix) true).
Proof.
  unfold separate, separate_body, run_demucs.
  destruct (subprocess_run _ =? 0) eqn:Erc.
  - apply Z.eqb_eq in Erc.
    destruct (find_stems_dir _ _ _ _) as [d|e].
    + cbn [dest_files].
      destruct (copy_stems _ _ _) as [[[]|e] files] eqn:Ec; [discriminate|].
      intros [= <-]. cbn [dest_files temp_out_exists].
      split; [|split; [reflexivity | congruence]].
      replace files with (snd (copy_stems (dir_path d) (dir_files d)
                                 (write (dest_files w) "mix.wav" mix))) by now rewrite Ec.
      unfold copy_stems. rewrite copy_loop_untouched by exact mix_is_no_stem.
      apply write_same.
    + intros [= <-]. cbn [dest_files temp_out_exists].
      split; [apply write_same | split; [reflexivity | congruence]].
  - intros [= <-]. cbn [dest_files temp_out_exists].
    split; [apply write_same | split; reflexivity].
Qed.

(** X13 at a Demucs process that returns 3. *)
Lemma separate_failure_leaves_files_witness :
  let w' := mkWorkspace (write old_files "mix.wav" 7) true in
  dest_files w' "mix.wav"%string = Some 7
  /\ temp_out_exists w' = true
  /\ (3 <> 0 -> w' = mkWorkspace (write old_files "mix.wav" 7) true).
Proof.
  intros w'.
  apply (separate_failure_leaves_files (fun s => s) 7 None "python" (fun _ => 3)
           [demucs_dir] [demucs_dir] "song.mp3" "htdemucs" None
           (mkWorkspace old_files false) w').
  reflexivity.
Defined.

(** ** [analyze] *)

(** X14.  After [analyze] has run on an audio file, [make_backing] with
    [--auto-bpm] takes its beats from the metadata.json beside it: they are
    the beat times of librosa, each rounded to 6 digits, and librosa is not
    asked again.  [analyze] ends with code 0 and changes no other file. *)
Theorem analyze_then_auto_bpm {F : Type} `{PyFloat F} beat_track beat_track'
  (dir : directory (F:=F)) mix_name mix steps bpm max_len tr :
  dir mix_name = Some (Audio mix) ->
  fst (analyze beat_track dir mix_name) = 0
  /\ beat_grid beat_track' steps (snd (analyze beat_track dir mix_name)) true true bpm max_len tr
     = Some (Ok (map round6 (beat_track mix)), tr)
  /\ (forall n, n <> "metadata.json"%string ->
        snd (analyze beat_track dir mix_name) n = dir n).
Proof.
  intros Hmix. unfold analyze. rewrite Hmix. cbn [fst snd].
  split; [reflexivity|]. split.
  - unfold beat_grid, lift, auto_beats. now rewrite write_same.
  - intros n Hn. now apply write_other.
Qed.

(** X14 at a mix with one beat, at a third of a second. *)
Lemma analyze_then_auto_bpm_witness :
  let dir : directory (F:=float) :=
    fun n => if String.eqb n "mix.wav" then Some (Audio silent_stem) else None in
  let beats := fun _ : AudioSegment => [fdiv (fof_int 1) (fof_int 3)] in
  fst (analyze beats dir "mix.wav") = 0
  /\ beat_grid (fun _ => []) 0 (snd (analyze beats dir "mix.wav")) true true None 2 []
     = Some (Ok (map round6 (beats silent_stem)), [])
  /\ (forall n, n <> "metadata.json"%string -> snd (analyze beats dir "mix.wav") n = dir n).
Proof.
  intros dir beats.
  apply (analyze_then_auto_bpm (F:=float) beats (fun _ => []) dir "mix.wav" silent_stem).
  reflexivity.
Defined.

(* ===================================================================== *)
(** * More on [make_backing] *)
(* ===================================================================== *)

Lemma and_then_eq {A B : Type} (m m' : io A) (k k' : A -> io B) tr :
  m tr = m' tr -> (forall a tr', k a tr' = k' a tr') -> and_then m k tr = and_then m' k' tr.
Proof.
  intros Hm Hk. unfold and_then. rewrite Hm.
  destruct (m' tr) as [[[a|e] tr']|]; auto.
Qed.

Section Runs.
Context {F : Type} `{PyFloat F}.
Variable ratecv : list Z -> Z -> Z -> Z -> Z -> list Z.
Variable white_noise : AudioSegment.
Variable fade_out : Z -> AudioSegment -> AudioSegment.
Variable beat_track : AudioSegment -> list F.

(** ** Validation *)

Lemma check_required_first_absent (dir : directory (F:=F)) stems_dir pre n post :
  (forall m, In m pre -> file_exists dir m = true) -> dir n = None ->
  check_required dir stems_dir (pre ++ n :: post)
  = Raise (FileNotFoundError (missing_file_message ++ path_of stems_dir n)).
Proof.
  intros Hpre Hn. induction pre as [|k pre IH]; simpl.
  - unfold file_exists. now rewrite Hn.
  - rewrite (Hpre k) by now left. apply IH. intros m Hm. apply Hpre. now right.
Qed.

Lemma check_required_agree (dir dir' : directory (F:=F)) stems_dir names :
  (forall n, In n names -> dir n = dir' n) ->
  check_required dir stems_dir names = check_required dir' stems_dir names.
Proof.
  induction names as [|k rest IH]; intros Hagree; simpl; [reflexivity|].
  unfold file_exists. rewrite (Hagree k) by now left.
  rewrite IH by (intros n Hn; apply Hagree; now right). reflexivity.
Qed.

(** X15.  Of several absent files, [make_backing] names the first in the
    order vocals.wav, drums.wav, bass.wav, other.wav, mix.wav: when every
    required file before [n] exists and [n] does not, the command ends with
    code 1 on the FileNotFoundError of the path of [n], before any file is
    decoded. *)
Theorem make_backing_names_first_absent_file steps (dir : directory (F:=F)) stems_dir
  auto_bpm bpm with_click drum_gain mp3 pre n post :
  required = pre ++ n :: post ->
  (forall m, In m pre -> file_exists dir m = true) -> dir n = None ->
  make_backing ratecv white_noise fade_out beat_track steps dir stems_dir
    auto_bpm bpm with_click drum_gain mp3
  = Some (Exit1 (FileNotFoundError (missing_file_message ++ path_of stems_dir n)), []).
Proof.
  intros Hsplit Hpre Hn.
  unfold make_backing, command, make_backing_body, and_then, lift.
  rewrite Hsplit, (check_required_first_absent dir stems_dir pre n post Hpre Hn).
  reflexivity.
Qed.

(** X16.  The validation of [make_backing] passes exactly when all five
    required files exist; it does not look at what they contain. *)
Theorem validation_passes_iff_all_five_exist (dir : directory (F:=F)) stems_dir :
  check_required dir stems_dir required = Ok tt
  <-> (forall n, In n required -> file_exists dir n = true).
Proof. apply check_required_all_exist. Qed.

(** ** The fixed-tempo loop *)

Lemma beat_loop_stalled (step total t : F) :
  fadd t step = t -> fle t total = true ->
  forall steps beats_sec, beat_loop steps step total t beats_sec = None.
Proof.
  intros Hadd Hle steps. induction steps as [|steps IH]; intros beats_sec; simpl.
  - reflexivity.
  - rewrite Hle, Hadd. apply IH.
Qed.

(** X17.  When [bpm] passes the guard of line 251 but [0.0 + 60.0 / bpm]
    is [0.0] again, and the canvas has no negative length, the loop of
    lines 255-257 never ends: whatever the number of steps granted, neither
    the beat grid nor [make_backing]'s mixdown returns. *)
Theorem fixed_tempo_loop_never_ends b max_len :
  truthy b = true -> flt (fof_int 0) b = true ->
  fadd (fof_int 0) (fdiv (fof_int 60) b) = fof_int 0 ->
  fle (fof_int 0) (fdiv (fof_int max_len) (fof_int 1000)) = true ->
  forall steps,
    fixed_tempo_beats steps (Some b) max_len = None
    /\ (forall dir tr, beat_grid beat_track steps dir true false (Some b) max_len tr = None).
Proof.
  intros Ht Hp Hadd Hle steps.
  assert (Hnone : fixed_tempo_beats steps (Some b) max_len = None).
  { unfold fixed_tempo_beats. rewrite Ht, Hp. simpl.
    now apply beat_loop_stalled. }
  split; [exact Hnone|].
  intros dir tr. unfold beat_grid, within_steps. now rewrite Hnone.
Qed.

(** ** Without click *)

Lemma load_seg_agree (dir dir' : directory (F:=F)) stems_dir name tr :
  dir name = dir' name -> _load_seg dir stems_dir name tr = _load_seg dir' stems_dir name tr.
Proof. intros Hn. unfold _load_seg, and_then. now rewrite Hn. Qed.

Lemma mixdown_without_click steps steps' dir dir' auto_bpm auto_bpm' bpm bpm' drum_gain
  vocals drums bass other mix tr :
  mixdown ratecv white_noise fade_out beat_track steps dir auto_bpm bpm false drum_gain
    vocals drums bass other mix tr
  = mixdown ratecv white_noise fade_out beat_track steps' dir' auto_bpm' bpm' false drum_gain
      vocals drums bass other mix tr.
Proof. reflexivity. Qed.

(** X18.  Without [--with-click], [make_backing] reads nothing but the
    five required files and ignores [--bpm] and [--auto-bpm]: two
    directories that agree on the five files give the same outcome and the
    same exported buffers, whatever their metadata.json and whatever the
    tempo options. *)
Theorem make_backing_without_click_reads_five_files steps steps' (dir dir' : directory (F:=F))
  stems_dir auto_bpm auto_bpm' bpm bpm' drum_gain mp3 :
  (forall n, In n required -> dir n = dir' n) ->
  make_backing ratecv white_noise fade_out beat_track steps dir stems_dir
    auto_bpm bpm false drum_gain mp3
  = make_backing ratecv white_noise fade_out beat_track steps' dir' stems_dir
      auto_bpm' bpm' false drum_gain mp3.
Proof.
  intros Hagree.
  assert (Hn : forall n, In n required ->
            forall tr, _load_seg dir stems_dir n tr = _load_seg dir' stems_dir n tr).
  { intros n Hin tr. apply load_seg_agree. now apply Hagree. }
  unfold make_backing, command.
  replace (make_backing_body ratecv white_noise fade_out beat_track steps dir stems_dir
             auto_bpm bpm false drum_gain mp3 [])
    with (make_backing_body ratecv white_noise fade_out beat_track steps' dir' stems_dir
             auto_bpm' bpm' false drum_gain mp3 []); [reflexivity|].
  unfold make_backing_body.
  apply and_then_eq.
  { unfold lift. now rewrite (check_required_agree dir dir' stems_dir required Hagree). }
  intros _ tr0. apply and_then_eq; [symmetry; apply Hn; simpl; tauto|].
  intros vocals tr1. apply and_then_eq; [symmetry; apply Hn; simpl; tauto|].
  intros drums tr2. apply and_then_eq; [symmetry; apply Hn; simpl; tauto|].
  intros bass tr3. apply and_then_eq; [symmetry; apply Hn; simpl; tauto|].
  intros other tr4. apply and_then_eq; [symmetry; apply Hn; simpl; tauto|].
  intros mix tr5. apply and_then_eq; [|reflexivity].
  apply mixdown_without_click.
Qed.

(** ** What a successful run leaves *)

Lemma load_seg_trace (dir : directory (F:=F)) stems_dir name tr r tr' :
  _load_seg dir stems_dir name tr = Some (r, tr') -> tr' = tr ++ [Loaded name].
Proof.
  unfold _load_seg, and_then, emit, lift, raise.
  destruct (dir name) as [[seg|b]|]; now intros [= _ <-].
Qed.

Lemma beat_grid_trace steps dir with_click auto_bpm bpm max_len tr r tr' :
  beat_grid beat_track steps dir with_click auto_bpm bpm max_len tr = Some (r, tr') -> tr' = tr.
Proof.
  unfold beat_grid, lift, within_steps, ret.
  destruct with_click; [destruct auto_bpm|].
  - now intros [= _ <-].
  - destruct (fixed_tempo_beats _ _ _); [now intros [= _ <-] | discriminate].
  - now intros [= _ <-].
Qed.

Lemma mixdown_trace steps dir auto_bpm bpm with_click drum_gain vocals drums bass other mix
  tr out tr' :
  mixdown ratecv white_noise fade_out beat_track steps dir auto_bpm bpm with_click
    drum_gain vocals drums bass other mix tr = Some (Ok out, tr') ->
  tr' = tr /\ exists backing, out = normalize backing.
Proof.
  unfold mixdown, and_then, lift, ret.
  destruct (_longest_duration_ms _) as [max_len|]; [|discriminate].
  destruct (canvas _ _) as [base|]; [|discriminate].
  destruct (overlay_stems _ _ _ _ _ _) as [backing|]; [|discriminate].
  destruct (beat_grid _ _ _ _ _ _ _ _) as [[[beats|e] tr2]|] eqn:Eg; try discriminate.
  apply beat_grid_trace in Eg. subst tr2.
  destruct (click_stage _ _ _ _ _ _ _) as [clicked|]; [|discriminate].
  intros [= <- <-]. split; [reflexivity | eauto].
Qed.

(** X19.  A run of [make_backing] that ends with code 0 has decoded the
    five files once each, in the order vocals, drums, bass, other, mix, and
    then exported backing.wav, followed by backing.mp3 exactly when [--mp3]
    is given; both exports hold the same buffer, which comes out of the
    loudness normalization. *)
Theorem make_backing_success_trace steps (dir : directory (F:=F)) stems_dir
  auto_bpm bpm with_click drum_gain mp3 tr :
  make_backing ratecv white_noise fade_out beat_track steps dir stems_dir
    auto_bpm bpm with_click drum_gain mp3 = Some (Exit0, tr) ->
  exists mixed,
    tr = [Loaded "vocals.wav"; Loaded "drums.wav"; Loaded "bass.wav"; Loaded "other.wav";
          Loaded "mix.wav"; Exported "backing.wav" "wav" (normalize mixed)]
         ++ (if mp3 then [Exported "backing.mp3" "mp3" (normalize mixed)] else []).
Proof.
  unfold make_backing, command, make_backing_body. intros Hrun.
  unfold and_then at 1 in Hrun. unfold lift at 1 in Hrun.
  destruct (check_required _ _ _); [|discriminate].
  unfold and_then at 1 in Hrun.
  destruct (_load_seg dir stems_dir "vocals.wav" []) as [[[vocals|e] tr1]|] eqn:E1;
    try discriminate.
  apply load_seg_trace in E1. subst tr1.
  unfold and_then at 1 in Hrun.
  destruct (_load_seg dir stems_dir "drums.wav" _) as [[[drums|e] tr2]|] eqn:E2;
    try discriminate.
  apply load_seg_trace in E2. subst tr2.
  unfold and_then at 1 in Hrun.
  destruct (_load_seg dir stems_dir "bass.wav" _) as [[[bass|e] tr3]|] eqn:E3;
    try discriminate.
  apply load_seg_trace in E3. subst tr3.
  unfold and_then at 1 in Hrun.
  destruct (_load_seg dir stems_dir "other.wav" _) as [[[other|e] tr4]|] eqn:E4;
    try discriminate.
  apply load_seg_trace in E4. subst tr4.
  unfold and_then at 1 in Hrun.
  destruct (_load_seg dir stems_dir "mix.wav" _) as [[[mix|e] tr5]|] eqn:E5;
    try discriminate.
  apply load_seg_trace in E5. subst tr5.
  unfold and_then at 1 in Hrun.
  destruct (mixdown _ _ _ _ _ _ _ _ _ _ _ _ _ _ _ _) as [[[out|e] tr6]|] eqn:E6;
    try discriminate.
  apply mixdown_trace in E6. destruct E6 as [-> [mixed ->]].
  exists mixed. revert Hrun. unfold and_then, emit, ret.
  destruct mp3; intros [= <-]; reflexivity.
Qed.

Lemma load_seg_ok (dir : directory (F:=F)) stems_dir name tr seg tr' :
  _load_seg dir stems_dir name tr = Some (Ok seg, tr') ->
  tr' = tr ++ [Loaded name]
  /\ exists src, dir name = Some (Audio src) /\ (channels src = 1 \/ channels src = 2).
Proof.
  intros Hload. split; [exact (load_seg_trace _ _ _ _ _ _ Hload)|].
  revert Hload. unfold _load_seg, and_then, emit, lift, raise.
  destruct (dir name) as [[src|b]|]; try discriminate.
  intros Hset. exists src. split; [reflexivity|].
  unfold set_channels in Hset.
  destruct (Z.eqb_spec 2 (channels src)); [now right|].
  destruct (Z.eqb_spec (channels src) 1); [now left|].
  simpl in Hset. discriminate.
Qed.

(** X20.  A run of [make_backing] ends with code 0 only if each of the five
    required files decodes to audio of one or two channels: a file that is
    not audio, or that has more channels, makes the command end with code
    1. *)
Theorem make_backing_success_needs_mono_or_stereo steps (dir : directory (F:=F)) stems_dir
  auto_bpm bpm with_click drum_gain mp3 tr :
  make_backing ratecv white_noise fade_out beat_track steps dir stems_dir
    auto_bpm bpm with_click drum_gain mp3 = Some (Exit0, tr) ->
  forall n, In n required ->
    exists src, dir n = Some (Audio src) /\ (channels src = 1 \/ channels src = 2).
Proof.
  unfold make_backing, command, make_backing_body. intros Hrun.
  unfold and_then at 1 in Hrun. unfold lift at 1 in Hrun.
  destruct (check_required _ _ _); [|discriminate].
  unfold and_then at 1 in Hrun.
  destruct (_load_seg dir stems_dir "vocals.wav" []) as [[[vocals|e] tr1]|] eqn:E1;
    try discriminate.
  apply load_seg_ok in E1. destruct E1 as [-> S1].
  unfold and_then at 1 in Hrun.
  destruct (_load_seg dir stems_dir "drums.wav" _) as [[[drums|e] tr2]|] eqn:E2;
    try discriminate.
  apply load_seg_ok in E2. destruct E2 as [-> S2].
  unfold and_then at 1 in Hrun.
  destruct (_load_seg dir stems_dir "bass.wav" _) as [[[bass|e] tr3]|] eqn:E3;
    try discriminate.
  apply load_seg_ok in E3. destruct E3 as [-> S3].
  unfold and_then at 1 in Hrun.
  destruct (_load_seg dir stems_dir "other.wav" _) as [[[other|e] tr4]|] eqn:E4;
    try discriminate.
  apply load_seg_ok in E4. destruct E4 as [-> S4].
  unfold and_then at 1 in Hrun.
  destruct (_load_seg dir stems_dir "mix.wav" _) as [[[mix|e] tr5]|] eqn:E5;
    try discriminate.
  apply load_seg_ok in E5. destruct E5 as [-> S5].
  intros n [<- | [<- | [<- | [<- | [<- | []]]]]]; assumption.
Qed.

(** ** Metadata without beats *)

Lemma mixdown_no_auto_beats steps dir bpm drum_gain vocals drums bass other mix tr :
  auto_beats beat_track dir = Ok [] ->
  mixdown ratecv white_noise fade_out beat_track steps dir true bpm true drum_gain
    vocals drums bass other mix tr
  = mixdown ratecv white_noise fade_out beat_track steps dir true bpm false drum_gain
      vocals drums bass other mix tr.
Proof.
  intros Hb. unfold mixdown.
  repeat (apply and_then_ext; intros).
  apply and_then_cong. unfold beat_grid. now rewrite Hb.
Qed.

(** X21.  With [--with-click --auto-bpm] and a metadata.json that has no
    "beats" entry, or an empty one, nothing is raised and librosa is not
    asked: [make_backing] runs exactly as it does without click. *)
Theorem metadata_without_beats_gives_no_clicks steps (dir : directory (F:=F)) stems_dir
  bpm drum_gain mp3 :
  dir "metadata.json"%string = Some (Json None)
  \/ dir "metadata.json"%string = Some (Json (Some [])) ->
  make_backing ratecv white_noise fade_out beat_track steps dir stems_dir
    true bpm true drum_gain mp3
  = make_backing ratecv white_noise fade_out beat_track steps dir stems_dir
      true bpm false drum_gain mp3.
Proof.
  intros Hmeta.
  assert (Hb : auto_beats beat_track dir = Ok []).
  { unfold auto_beats. destruct Hmeta as [-> | ->]; reflexivity. }
  unfold make_backing, command.
  replace (make_backing_body ratecv white_noise fade_out beat_track steps dir stems_dir
             true bpm true drum_gain mp3 [])
    with (make_backing_body ratecv white_noise fade_out beat_track steps dir stems_dir
             true bpm false drum_gain mp3 []); [reflexivity|].
  unfold make_backing_body.
  repeat (apply and_then_ext; intros).
  apply and_then_cong. symmetry. now apply mixdown_no_auto_beats.
Qed.

End Runs.

(** ** Runs that succeed *)





Section Stereo.
Variable ratecv : list Z -> Z -> Z -> Z -> Z -> list Z.



End Stereo.








(** Five stereo stems at 0 frames per second: the canvas is empty, and
    cutting it for the first overlay divides by its frame rate. *)
Lemma make_backing_at_frame_rate_0 :
  make_backing (F:=Q) no_resampling silent_stem no_fade (fun _ => []) 0
    (fun _ => Some (Audio (mkSeg [0; 0; 0; 0] 2 0 2))) "stems" false None false None false
  = Some (Exit1 (ZeroDivisionError "float division by zero"),
          [Loaded "vocals.wav"; Loaded "drums.wav"; Loaded "bass.wav"; Loaded "other.wav";
           Loaded "mix.wav"]).
Proof. reflexivity. Qed.

(** ** Drum gain *)

(** X23.  A drum gain of 0 dB leaves the drums as they were decoded:
    [--drum-gain 0] mixes the drums unchanged, for every buffer whose
    samples fit its width. *)
Theorem zero_drum_gain_keeps_drums (drums : AudioSegment) :
  well_formed drums -> attenuate (Some 0%R) drums = drums.
Proof. intros Hwf. unfold attenuate. now apply apply_gain_0. Qed.

(** X23 at a 16-bit buffer that reaches both ends of the range. *)
Lemma zero_drum_gain_keeps_drums_witness :
  attenuate (Some 0%R) (mkSeg [12; -7; 32767; -32768] 2 44100 2)
  = mkSeg [12; -7; 32767; -32768] 2 44100 2.
Proof.
  apply zero_drum_gain_keeps_drums. split; [simpl; lia|]. simpl.
  repeat (apply Forall_cons; [apply sample_in_range_16; lia|]). apply Forall_nil.
Defined.

(** ** Beats from metadata.json *)

(** X24.  In exact arithmetic, the click of a beat read from the
    metadata.json that [analyze] wrote is at most one millisecond away from
    the click of the same beat estimated on the fly: rounding a beat time
    [t >= 0] to 6 digits moves [int(t * 1000)] by at most 1.  It does move
    some: the beat at 0.9999996 s clicks at 999 ms, and at 1000 ms once
    rounded. *)
Theorem analyzed_beat_clicks_within_1_ms :
  (forall t : Q, (0 <= t)%Q ->
     exists pos pos',
       click_position (F:=Q) t = Ok pos
       /\ click_position (F:=Q) (round6 t) = Ok pos'
       /\ Z.abs (pos' - pos) <= 1)
  /\ click_position (F:=Q) (9999996 # 10000000) = Ok 999
  /\ click_position (F:=Q) (round6 (9999996 # 10000000)) = Ok 1000.
Proof.
  split; [|split; reflexivity].
  intros t Ht. destruct t as [n d]. unfold Qle in Ht. simpl in Ht.
  assert (Hn : 0 <= n) by lia.
  unfold click_position. cbn [int_of fmul fof_int round6 exact].
  eexists. eexists. split; [reflexivity|]. split; [reflexivity|].
  unfold Q_round6. cbn [Qnum Qden Qmult inject_Z].
  pose proof (round_half_even_near (n * 1000000) d) as Hnear.
  pose proof (round_half_even_nonneg (n * 1000000) d ltac:(lia)) as Hr.
  set (r := round_half_even (n * 1000000) d) in *.
  rewrite !Pos.mul_1_r.
  rewrite !Z.quot_div_nonneg by lia.
  pose proof (Z.div_mod (r * 1000) 1000000 ltac:(lia)) as H1.
  pose proof (Z.mod_pos_bound (r * 1000) 1000000 ltac:(lia)) as H1b.
  pose proof (Z.div_mod (n * 1000) (Zpos d) ltac:(lia)) as H2.
  pose proof (Z.mod_pos_bound (n * 1000) (Zpos d) ltac:(lia)) as H2b.
  set (p' := r * 1000 / 1000000) in *. set (p := n * 1000 / Zpos d) in *.
  set (m' := (r * 1000) mod 1000000) in *. set (m := (n * 1000) mod Zpos d) in *.
  assert (Hd : 0 < Zpos d) by lia.
  apply Z.abs_le. split.
  - destruct (Z_le_gt_dec (-1) (p' - p)) as [|Hc]; [assumption|]. exfalso. nia.
  - destruct (Z_le_gt_dec (p' - p) 1) as [|Hc]; [assumption|]. exfalso. nia.
Qed.

(** X24 at a beat at a third of a second. *)
Lemma analyzed_beat_clicks_within_1_ms_witness :
  exists pos pos',
    click_position (F:=Q) (1 # 3) = Ok pos
    /\ click_position (F:=Q) (round6 (1 # 3)) = Ok pos'
    /\ Z.abs (pos' - pos) <= 1.
Proof. apply (proj1 analyzed_beat_clicks_within_1_ms). unfold Qle. simpl. lia. Defined.

(** ** The runs above, on sample directories *)

(** X15 at a directory without bass.wav and mix.wav. *)
Lemma make_backing_names_first_absent_file_witness :
  make_backing (F:=float) no_resampling silent_stem no_fade (fun _ => []) 0
    stems_without_bass_and_mix "stems" false None false (Some (-120)%R) false
  = Some (Exit1 (FileNotFoundError (missing_file_message ++ path_of "stems" "bass.wav")), []).
Proof.
  apply (make_backing_names_first_absent_file (F:=float) no_resampling silent_stem no_fade
           (fun _ => []) 0 stems_without_bass_and_mix "stems" false None false
           (Some (-120)%R) false ["vocals.wav"; "drums.wav"]%string "bass.wav"%string
           ["other.wav"; "mix.wav"]%string).
  - reflexivity.
  - intros m [<- | [<- | []]]; reflexivity.
  - reflexivity.
Defined.

(** X17 in binary64 at [bpm = inf], where [60.0 / bpm] is [0.0]. *)
Lemma fixed_tempo_loop_never_ends_witness :
  fixed_tempo_beats (F:=float) 1000 (Some infinity) 1000 = None
  /\ (forall dir tr,
        beat_grid (F:=float) (fun _ => []) 1000 dir true false (Some infinity) 1000 tr = None).
Proof.
  apply (fixed_tempo_loop_never_ends (F:=float) (fun _ => []) infinity 1000);
    vm_compute; reflexivity.
Defined.

(** X18 at two directories that differ in metadata.json, with different
    tempo options. *)
Lemma make_backing_without_click_reads_five_files_witness :
  make_backing (F:=float) no_resampling silent_stem no_fade (fun _ => []) 0
    all_silent "stems" false None false None false
  = make_backing (F:=float) no_resampling silent_stem no_fade (fun _ => []) 5
      stems_with_metadata "stems" true (Some (fof_int 120)) false None false.
Proof.
  apply (make_backing_without_click_reads_five_files (F:=float)).
  intros n [<- | [<- | [<- | [<- | [<- | []]]]]]; reflexivity.
Defined.

(** X19 at five silent stems, with [--mp3]. *)
Lemma make_backing_success_trace_witness :
  exists mixed,
    [Loaded "vocals.wav"; Loaded "drums.wav"; Loaded "bass.wav"; Loaded "other.wav";
     Loaded "mix.wav"; Exported "backing.wav" "wav" (normalize silent_stem);
     Exported "backing.mp3" "mp3" (normalize silent_stem)]
    = [Loaded "vocals.wav"; Loaded "drums.wav"; Loaded "bass.wav"; Loaded "other.wav";
       Loaded "mix.wav"; Exported "backing.wav" "wav" (normalize mixed)]
      ++ (if true then [Exported "backing.mp3" "mp3" (normalize mixed)] else []).
Proof.
  apply (make_backing_success_trace (F:=Q) no_resampling silent_stem no_fade (fun _ => []) 0
           all_silent "stems" false None false None true).
  reflexivity.
Defined.


(** X20 at the drums of five silent stems. *)
Lemma make_backing_success_needs_mono_or_stereo_witness :
  exists src, all_silent (F:=Q) "drums.wav"%string = Some (Audio src)
              /\ (channels src = 1 \/ channels src = 2).
Proof.
  apply (make_backing_success_needs_mono_or_stereo (F:=Q) no_resampling silent_stem no_fade
           (fun _ => []) 0 all_silent "stems" false None false None true
           [Loaded "vocals.wav"; Loaded "drums.wav"; Loaded "bass.wav"; Loaded "other.wav";
            Loaded "mix.wav"; Exported "backing.wav" "wav" (normalize silent_stem);
            Exported "backing.mp3" "mp3" (normalize silent_stem)]).
  - reflexivity.
  - simpl. tauto.
Defined.

(** X21 at a metadata.json without "beats". *)
Lemma metadata_without_beats_gives_no_clicks_witness :
  make_backing (F:=float) no_resampling silent_stem no_fade (fun _ => []) 0
    stems_with_empty_metadata "stems" true None true (Some (-120)%R) false
  = make_backing (F:=float) no_resampling silent_stem no_fade (fun _ => []) 0
      stems_with_empty_metadata "stems" true None false (Some (-120)%R) false.
Proof.
  apply (metadata_without_beats_gives_no_clicks (F:=float)). left. reflexivity.
Defined.

